(** * twinTrim duplicate detection ([Detection.py])

    A shallow embedding of the two-stage duplicate finder: files are first
    grouped by size ([find_duplicates_by_size]), then the candidates are
    regrouped by the MD5 digest of their content ([find_duplicates_by_hash],
    [hash_file]).  The operating system, the standard output and the
    exceptions of the Python code are explicit: every function of the
    source runs in a state-and-exception monad over a [world].

    The worlds are those in which the library calls fail only in the way
    the program expects: paths hold no NUL character (for one, [os.walk]
    and [open] raise [ValueError]), files are regular files that do not
    block, the standard output accepts every line, and block sizes fit a
    machine word.  What the program does outside these worlds is not
    stated here. *)

From Equations Require Import Equations.
From Stdlib Require Import String Ascii ZArith Lia Bool List Permutation.
From Stdlib.Strings Require Import Byte.
Import ListNotations.

Local Open Scope string_scope.
Local Open Scope Z_scope.
Local Open Scope list_scope.

Set Implicit Arguments.

(** ** The digest of [hashlib.md5]

    [hashlib] is a library the program calls; its MD5 is written out here
    (RFC 1321) so that the digests of concrete files can be evaluated. *)

Module MD5.

Definition wrap32 (x : Z) : Z := x mod 4294967296.

Definition not32 (x : Z) : Z := Z.lxor x 4294967295.

Definition rotl32 (x s : Z) : Z :=
  wrap32 (Z.lor (Z.shiftl x s) (Z.shiftr x (32 - s))).

Definition shifts : list Z :=
  [ 7; 12; 17; 22; 7; 12; 17; 22; 7; 12; 17; 22; 7; 12; 17; 22;
    5; 9; 14; 20; 5; 9; 14; 20; 5; 9; 14; 20; 5; 9; 14; 20;
    4; 11; 16; 23; 4; 11; 16; 23; 4; 11; 16; 23; 4; 11; 16; 23;
    6; 10; 15; 21; 6; 10; 15; 21; 6; 10; 15; 21; 6; 10; 15; 21 ].

Definition sines : list Z :=
  [ 3614090360; 3905402710; 606105819; 3250441966;
    4118548399; 1200080426; 2821735955; 4249261313;
    1770035416; 2336552879; 4294925233; 2304563134;
    1804603682; 4254626195; 2792965006; 1236535329;
    4129170786; 3225465664; 643717713; 3921069994;
    3593408605; 38016083; 3634488961; 3889429448;
    568446438; 3275163606; 4107603335; 1163531501;
    2850285829; 4243563512; 1735328473; 2368359562;
    4294588738; 2272392833; 1839030562; 4259657740;
    2763975236; 1272893353; 4139469664; 3200236656;
    681279174; 3936430074; 3572445317; 76029189;
    3654602809; 3873151461; 530742520; 3299628645;
    4096336452; 1126891415; 2878612391; 4237533241;
    1700485571; 2399980690; 4293915773; 2240044497;
    1873313359; 4264355552; 2734768916; 1309151649;
    4149444226; 3174756917; 718787259; 3951481745 ].

Record regs : Type := Regs { rA : Z; rB : Z; rC : Z; rD : Z }.

Definition initial : regs := Regs 1732584193 4023233417 2562383102 271733878.

(** The mixing function and the message index of operation [i]. *)
Definition mix (i : Z) (b c d : Z) : Z * Z :=
  if i <? 16 then (Z.lor (Z.land b c) (Z.land (not32 b) d), i)
  else if i <? 32 then (Z.lor (Z.land d b) (Z.land (not32 d) c), (5 * i + 1) mod 16)
  else if i <? 48 then (Z.lxor (Z.lxor b c) d, (3 * i + 5) mod 16)
  else (Z.lxor c (Z.lor b (not32 d)), (7 * i) mod 16).

Definition operation (m : list Z) (r : regs) (i : nat) : regs :=
  let '(f, g) := mix (Z.of_nat i) (rB r) (rC r) (rD r) in
  let f' := wrap32 (f + rA r + nth i sines 0 + nth (Z.to_nat g) m 0) in
  Regs (rD r) (wrap32 (rB r + rotl32 f' (nth i shifts 0))) (rB r) (rC r).

(** Four bytes, least significant first, as one 32-bit word. *)
Fixpoint words (n : nat) (bs : list Z) : list Z :=
  match n with
  | O => []
  | S n' =>
      (nth 0%nat bs 0 + 256 * nth 1%nat bs 0
       + 65536 * nth 2%nat bs 0 + 16777216 * nth 3%nat bs 0)
        :: words n' (skipn 4 bs)
  end.

Definition compress (r : regs) (block : list Z) : regs :=
  let r' := fold_left (operation (words 16 block)) (seq 0 64) r in
  Regs (wrap32 (rA r + rA r')) (wrap32 (rB r + rB r'))
       (wrap32 (rC r + rC r')) (wrap32 (rD r + rD r')).

Fixpoint blocks (n : nat) (bs : list Z) (r : regs) : regs :=
  match n with
  | O => r
  | S n' => blocks n' (skipn 64 bs) (compress r (firstn 64 bs))
  end.

Fixpoint le_bytes (n : nat) (x : Z) : list Z :=
  match n with
  | O => []
  | S n' => (x mod 256) :: le_bytes n' (x / 256)
  end.

Definition padding (len : Z) : list Z :=
  128 :: repeat 0 (Z.to_nat ((55 - len) mod 64))
    ++ le_bytes 8 ((8 * len) mod 18446744073709551616).

Definition digest (data : list byte) : list Z :=
  let bs := map (fun b => Z.of_N (Byte.to_N b)) data in
  let padded := bs ++ padding (Z.of_nat (length bs)) in
  let r := blocks (Nat.div (length padded) 64) padded initial in
  le_bytes 4 (rA r) ++ le_bytes 4 (rB r) ++ le_bytes 4 (rC r) ++ le_bytes 4 (rD r).

Definition hex_digit (x : Z) : ascii :=
  if x <? 10 then ascii_of_N (Z.to_N (48 + x)) else ascii_of_N (Z.to_N (87 + x)).

Fixpoint hex (bs : list Z) : string :=
  match bs with
  | [] => EmptyString
  | b :: bs' => String (hex_digit (b / 16)) (String (hex_digit (b mod 16)) (hex bs'))
  end.

Definition hexdigest (data : list byte) : string := hex (digest data).

End MD5.

Definition bytes_of (s : string) : list byte := list_byte_of_string s.

Infix "+++" := String.append (at level 60, right associativity).

(** A [hashlib] hash object, as far as the program uses one: created
    empty, fed with [update], read out with [hexdigest].  The two laws of
    [update] are the contract [hashlib] documents (repeated calls are
    equivalent to a single call with the concatenation of the arguments);
    the digest is a fixed number of bytes, two hexadecimal digits each. *)
Class HashAlgorithm : Type := {
  hasher : Type;
  new : hasher;
  update : hasher -> list byte -> hasher;
  hexdigest : hasher -> string;
  digest_size : nat;
  update_nil : forall h, update h [] = h;
  update_app : forall h a b, update (update h a) b = update h (a ++ b);
  digest_size_pos : (0 < digest_size)%nat;
  hexdigest_length : forall h, String.length (hexdigest h) = (2 * digest_size)%nat
}.

(** The digest of a whole byte string, computed in one pass:
    [hashlib.md5(data).hexdigest()]. *)
Definition one_pass `{HashAlgorithm} (data : list byte) : string :=
  hexdigest (update new data).

(** MD5 as such a hash object: its state is the bytes fed so far. *)
#[export] Instance md5 : HashAlgorithm.
Proof.
  refine {| hasher := list byte;
            new := [];
            update := fun h data => h ++ data;
            hexdigest := MD5.hexdigest;
            digest_size := 16 |}.
  - intros h. apply app_nil_r.
  - intros h a b. symmetry. apply app_assoc.
  - lia.
  - intros h. reflexivity.
Defined.

(** ** Dictionaries

    A Python [dict] keeps its keys in insertion order, and the order is
    visible in the result: a dictionary is a list of items. *)

Class EqKey (K : Type) : Type := {
  key_eqb : K -> K -> bool;
  key_eqb_eq : forall a b, key_eqb a b = true <-> a = b
}.

#[export] Instance EqKey_Z : EqKey Z := {| key_eqb := Z.eqb; key_eqb_eq := Z.eqb_eq |}.

#[export] Instance EqKey_string : EqKey string :=
  {| key_eqb := String.eqb; key_eqb_eq := String.eqb_eq |}.

Definition dict (K V : Type) : Type := list (K * V).

Definition keys {K V} (d : dict K V) : list K := map fst d.

Definition values {K V} (d : dict K V) : list V := map snd d.

(** [d[k].append(v)] on a [defaultdict(list)]: a missing key is created
    with the empty list, at the end of the dictionary. *)
Fixpoint dict_append {K V} `{EqKey K} (d : dict K (list V)) (k : K) (v : V)
  : dict K (list V) :=
  match d with
  | [] => [(k, [v])]
  | (k', vs) :: d' =>
      if key_eqb k' k then (k', vs ++ [v]) :: d'
      else (k', vs) :: dict_append d' k v
  end.

(** [{k: paths for k, paths in d.items() if len(paths) > 1}] *)
Definition more_than_one {K V} (d : dict K (list V)) : dict K (list V) :=
  filter (fun item => (1 <? length (snd item))%nat) d.

Definition dict_get {K V} `{EqKey K} (d : dict K V) (k : K) : option V :=
  option_map snd (find (fun item => key_eqb (fst item) k) d).

Definition nonempty {A} (l : list A) : option (list A) :=
  match l with
  | [] => None
  | _ :: _ => Some l
  end.

(** Grouping a list by an optional key, as both passes do: an item with a
    key is appended to the list of its key, an item without one is
    skipped. *)
Section Grouping.

Context {K A : Type} `{EqKey K}.

Variable key : A -> option K.

Definition add_item (d : dict K (list A)) (x : A) : dict K (list A) :=
  match key x with
  | Some k => dict_append d k x
  | None => d
  end.

Definition group_by (l : list A) : dict K (list A) := fold_left add_item l [].

Definition has_key (k : K) (x : A) : bool :=
  match key x with
  | Some k' => key_eqb k' k
  | None => false
  end.

(** The items of [l] with key [k], in the order of [l]. *)
Definition having (k : K) (l : list A) : list A := filter (has_key k) l.

(** The invariant of the grouping loop after the items [l]: the keys are
    distinct, and each key holds the items of [l] that have it. *)
Definition grouped (d : dict K (list A)) (l : list A) : Prop :=
  NoDup (keys d) /\ forall k, dict_get d k = nonempty (having k l).

End Grouping.

(** One list is the other with some elements left out, the rest in the
    same order. *)
Inductive subsequence {A : Type} : list A -> list A -> Prop :=
| subseq_nil : subsequence [] []
| subseq_skip x l l' : subsequence l l' -> subsequence l (x :: l')
| subseq_keep x l l' : subsequence l l' -> subsequence (x :: l) (x :: l').

(** ** The operating system *)

(** What [os.scandir] shows of a directory tree: a directory that cannot
    be listed, [os.scandir] raising [OSError] for it (it does not exist, is
    not a directory, or may not be read), or its entries in the order the
    system returns them.  An entry is a directory (possibly through a
    symbolic link) or anything else. *)
Inductive dtree : Type :=
| ScandirError (strerror : string)
| Listing (entries : dirents)
with dirents : Type :=
| NoMore
| NonDir (name : string) (rest : dirents)
| SubDir (name : string) (is_link : bool) (sub : dtree) (rest : dirents).

(** A file as [open] and [read] see it: its bytes, and possibly the
    number of [read] calls that succeed before one fails. *)
Record file : Type := File {
  content : list byte;
  fault : option (nat * string)
}.

Record os : Type := OS {
  scandir : string -> dtree;
  st_size : string -> string + Z;
  lookup : string -> string + file
}.

Inductive event : Type :=
| Printed (line : string)
| Open (path : string).

Record world : Type := World {
  sys : os;
  log : list event
}.

Definition emit (w : world) (evs : list event) : world :=
  {| sys := sys w; log := log w ++ evs |}.

(** ** Exceptions and the monad of the program *)

Inductive exn : Type :=
| OSError (strerror : string)
| ValueError (msg : string).

Inductive result (A : Type) : Type :=
| Ok (a : A)
| Raise (e : exn).
Arguments Raise {A} e.

Definition M (A : Type) : Type := world -> result A * world.

Definition ret {A} (a : A) : M A := fun w => (Ok a, w).

Definition bind {A B} (m : M A) (k : A -> M B) : M B :=
  fun w => match m w with
           | (Ok a, w') => k a w'
           | (Raise e, w') => (Raise e, w')
           end.

Notation "x <- m ;; k" := (bind m (fun x => k))
  (at level 61, m at next level, right associativity).
Notation "m ;;; k" := (bind m (fun _ => k))
  (at level 61, right associativity).

(** [try: body except OSError as e: handler(e)] *)
Definition try_except_OSError {A} (body : M A) (handler : string -> M A) : M A :=
  fun w => match body w with
           | (Raise (OSError e), w') => handler e w'
           | r => r
           end.

Definition lift {A} (r : exn + A) : M A :=
  fun w => match r with
           | inl e => (Raise e, w)
           | inr a => (Ok a, w)
           end.

(** A [for] loop whose body updates the loop's state. *)
Fixpoint for_each {A S} (l : list A) (body : A -> S -> M S) (s : S) : M S :=
  match l with
  | [] => ret s
  | x :: l' => s' <- body x s ;; for_each l' body s'
  end.

(** [print(line)] on a standard output that takes the line. *)
Definition print (line : string) : M unit :=
  fun w => (Ok tt, emit w [Printed line]).

(** [os.path.join(a, b)] of [posixpath]. *)
Definition startswith_sep (s : string) : bool :=
  match s with
  | String c _ => Ascii.eqb c "/"
  | EmptyString => false
  end.

Fixpoint endswith_sep (s : string) : bool :=
  match s with
  | EmptyString => false
  | String c EmptyString => Ascii.eqb c "/"
  | String _ s' => endswith_sep s'
  end.

Definition os_path_join (a b : string) : string :=
  if startswith_sep b then b
  else if (String.eqb a "" || endswith_sep a)%bool then a +++ b
  else a +++ "/" +++ b.

(** [os.walk(top)] with its defaults ([topdown=True], [onerror=None],
    [followlinks=False]): a directory that cannot be listed yields
    nothing, the error is ignored; a listed directory yields its path,
    its directory names and its other names, then its subdirectories are
    walked in order, except those reached through a symbolic link. *)
Fixpoint dirnames (es : dirents) : list string :=
  match es with
  | NoMore => []
  | NonDir _ rest => dirnames rest
  | SubDir name _ _ rest => name :: dirnames rest
  end.

Fixpoint filenames (es : dirents) : list string :=
  match es with
  | NoMore => []
  | NonDir name rest => name :: filenames rest
  | SubDir _ _ _ rest => filenames rest
  end.

Fixpoint walk (top : string) (t : dtree) : list (string * list string * list string) :=
  match t with
  | ScandirError _ => []
  | Listing es => (top, dirnames es, filenames es) :: walk_subdirs top es
  end
with walk_subdirs (top : string) (es : dirents)
  : list (string * list string * list string) :=
  match es with
  | NoMore => []
  | NonDir _ rest => walk_subdirs top rest
  | SubDir name is_link sub rest =>
      (if is_link then [] else walk (os_path_join top name) sub)
        ++ walk_subdirs top rest
  end.

Definition os_walk (top : string) : M (list (string * list string * list string)) :=
  fun w => (Ok (walk top (scandir (sys w) top)), w).

(** [os.path.getsize(path)] *)
Definition os_path_getsize (path : string) : M Z :=
  fun w => match st_size (sys w) path with
           | inl e => (Raise (OSError e), w)
           | inr n => (Ok n, w)
           end.

(** An open binary file: the bytes not yet read, and the reads left
    before the fault of the file, if it has one. *)
Record handle : Type := Handle {
  unread : list byte;
  reads_left : option (nat * string)
}.

(** [open(path, 'rb')]: the file, or the [OSError] of the system. *)
Definition open_rb (path : string) : M handle :=
  fun w => match lookup (sys w) path with
           | inl e => (Raise (OSError e), emit w [Open path])
           | inr f => (Ok (Handle (content f) (fault f)), emit w [Open path])
           end.

(** [f.read(size)] of a buffered binary file: up to [size] bytes, fewer
    only at the end of the file; everything for [-1]; a smaller [size] is
    refused. *)
Definition read (f : handle) (size : Z) : exn + (list byte * handle) :=
  if size <? -1 then inl (ValueError "read length must be non-negative or -1")
  else
    match reads_left f with
    | Some (O, e) => inl (OSError e)
    | budget =>
        let n := if size =? -1 then length (unread f) else Z.to_nat size in
        inr (firstn n (unread f),
             Handle (skipn n (unread f))
                    (match budget with
                     | Some (S k, e) => Some (k, e)
                     | other => other
                     end))
    end.

(** ** The program *)

(** A value together with the fact that it is the value of its expression. *)
Definition inspect {A : Type} (x : A) : {y : A | x = y} := exist _ x eq_refl.

Section Detection.

Context {HA : HashAlgorithm}.

(** The loop of [hash_file]:
    [while buf: hasher.update(buf); buf = f.read(block_size)]. *)
Equations? read_blocks (block_size : Z) (f : handle) (h : hasher) (buf : list byte)
  : exn + hasher by wf (length (unread f) + length buf)%nat lt :=
read_blocks block_size f h [] := inr h;
read_blocks block_size f h (b :: buf') with inspect (read f block_size) := {
  | exist _ (inl e) _ => inl e;
  | exist _ (inr (buf2, f')) Hread =>
      read_blocks block_size f' (update h (b :: buf')) buf2 }.
Proof.
  assert (Hlen : (length buf2 + length (unread f') = length (unread f))%nat).
  { unfold read in Hread. destruct (block_size <? -1); [discriminate |].
    destruct (reads_left f) as [[[|k] e]|]; [discriminate | | ];
      injection Hread as <- <-; cbn [unread];
      rewrite <- length_app, firstn_skipn; reflexivity. }
  cbn [length]. lia.
Qed.

(** The default of the parameter [block_size] of [hash_file]. *)
Definition default_block_size : Z := 65536.

(** The [try] statement either falls through with the hash object
    ([inr]) or has already returned from the function ([inl]). *)
Definition hash_file (file_path : string) (block_size : Z) : M (option string) :=
  let hasher := new in
  attempt <-
    try_except_OSError
      (f <- open_rb file_path ;;
       first <- lift (read f block_size) ;;
       hasher <- lift (read_blocks block_size (snd first) hasher (fst first)) ;;
       ret (inr hasher))
      (fun e =>
         print ("Error reading " +++ file_path +++ ": " +++ e) ;;;
         ret (inl None)) ;;
  match attempt with
  | inl returned => ret returned
  | inr hasher => ret (Some (hexdigest hasher))
  end.

(** The truth value of what [hash_file] returned: [None] and the empty
    string are false. *)
Definition truthy (file_hash : option string) : bool :=
  match file_hash with
  | None => false
  | Some h => negb (String.eqb h "")
  end.

Definition find_duplicates_by_size (directory : string) : M (dict Z (list string)) :=
  triples <- os_walk directory ;;
  size_dict <-
    for_each triples (fun '(root, _, files) size_dict =>
      for_each files (fun file size_dict =>
        let file_path := os_path_join root file in
        try_except_OSError
          (file_size <- os_path_getsize file_path ;;
           ret (dict_append size_dict file_size file_path))
          (fun e =>
             print ("Error accessing " +++ file_path +++ ": " +++ e) ;;;
             ret size_dict))
        size_dict)
      [] ;;
  ret (more_than_one size_dict).

Definition find_duplicates_by_hash (size_dict : dict Z (list string))
  : M (dict string (list string)) :=
  hash_dict <-
    for_each (values size_dict) (fun file_list hash_dict =>
      for_each file_list (fun file_path hash_dict =>
        file_hash <- hash_file file_path default_block_size ;;
        match file_hash with
        | Some h =>
            if truthy file_hash then ret (dict_append hash_dict h file_path)
            else ret hash_dict
        | None => ret hash_dict
        end)
        hash_dict)
      [] ;;
  ret (more_than_one hash_dict).

Definition newline : string := String (ascii_of_nat 10) "".

Definition display_duplicates (duplicate_dict : dict string (list string)) : M unit :=
  for_each duplicate_dict (fun '(file_hash, file_paths) _ =>
    print (newline +++ "Duplicate files with hash " +++ file_hash +++ ":") ;;;
    for_each file_paths (fun file_path _ => print ("  " +++ file_path)) tt)
    tt.

(** The body of the script, once [input] has returned the directory the
    user typed (line 91 is not part of it). *)
Definition main (directory_to_scan : string) : M unit :=
  size_duplicates <- find_duplicates_by_size directory_to_scan ;;
  match size_duplicates with
  | [] => print "No duplicate files found based on size."
  | _ =>
      content_duplicates <- find_duplicates_by_hash size_duplicates ;;
      match content_duplicates with
      | [] => print "No duplicate files found based on content."
      | _ => display_duplicates content_duplicates
      end
  end.

(** The two passes in sequence, as the script runs them. *)
Definition full_scan (directory : string) : M (dict string (list string)) :=
  size_duplicates <- find_duplicates_by_size directory ;;
  find_duplicates_by_hash size_duplicates.

(** *** What the passes compute, as functions of the system *)

(** What the [with] block of [hash_file] does to an open file: the
    first [read], then the loop. *)
Definition stream (block_size : Z) (f : handle) (h : hasher) : exn + hasher :=
  match read f block_size with
  | inl e => inl e
  | inr (buf, f') => read_blocks block_size f' h buf
  end.

(** Whether the [k]-th call of [read] (counted from 0) takes place when
    a file of [len] bytes is read [n] bytes at a time: the first call
    always does, a later one when the calls before it did not reach the
    end of the file. *)
Definition reached (k n len : nat) : bool :=
  ((k =? 0) || ((k - 1) * n <? len))%nat.

(** The [try] block of [hash_file], as a function of the system. *)
Definition hashing (s : os) (file_path : string) (block_size : Z) : exn + hasher :=
  match lookup s file_path with
  | inl e => inl (OSError e)
  | inr f => stream block_size (Handle (content f) (fault f)) new
  end.


(** The digest [hash_file] returns for a path with the default block
    size, if it returns one. *)
Definition digest_of (s : os) (file_path : string) : option string :=
  match hashing s file_path default_block_size with
  | inr h => Some (hexdigest h)
  | inl _ => None
  end.

(** The key under which the hash pass files a path: its digest when the
    digest is true. *)
Definition digest_key (s : os) (file_path : string) : option string :=
  match digest_of s file_path with
  | Some h => if truthy (Some h) then Some h else None
  | None => None
  end.

(** What one call of [hash_file] leaves in the log. *)
Definition hash_events (s : os) (file_path : string) : list event :=
  Open file_path ::
  match hashing s file_path default_block_size with
  | inl (OSError e) => [Printed ("Error reading " +++ file_path +++ ": " +++ e)]
  | _ => []
  end.

(** The size [os.path.getsize] reports for a path, if it reports one. *)
Definition size_of (s : os) (file_path : string) : option Z :=
  match st_size s file_path with
  | inr n => Some n
  | inl _ => None
  end.

Definition size_events (s : os) (file_path : string) : list event :=
  match st_size s file_path with
  | inl e => [Printed ("Error accessing " +++ file_path +++ ": " +++ e)]
  | inr _ => []
  end.

(** The paths the size pass visits, in the order of its two loops. *)
Definition joined (triple : string * list string * list string) : list string :=
  let '(root, _, files) := triple in map (os_path_join root) files.

Definition walked (s : os) (directory : string) : list string :=
  flat_map joined (walk directory (scandir s directory)).

(** What [display_duplicates] prints for one group. *)
Definition group_lines (item : string * list string) : list event :=
  Printed (newline +++ "Duplicate files with hash " +++ fst item +++ ":")
    :: map (fun file_path => Printed ("  " +++ file_path)) (snd item).

(** The groups and the events of [full_scan]. *)
Definition size_groups_of (s : os) (directory : string) : dict Z (list string) :=
  more_than_one (group_by (size_of s) (walked s directory)).

Definition scan_groups (s : os) (directory : string) : dict string (list string) :=
  more_than_one (group_by (digest_key s) (concat (values (size_groups_of s directory)))).

Definition scan_events (s : os) (directory : string) : list event :=
  flat_map (size_events s) (walked s directory)
    ++ flat_map (hash_events s) (concat (values (size_groups_of s directory))).

(** Opening the file fails, or one of the reads that [hash_file] makes
    with its default block size does. *)
Definition fails_to_hash (s : os) (file_path e : string) : Prop :=
  lookup s file_path = inl e \/
  exists f k,
    lookup s file_path = inr f /\ fault f = Some (k, e) /\
    reached k (Z.to_nat default_block_size) (length (content f)) = true.

(** A path is listed under a size of the input of the hash pass. *)
Definition listed_under (size_dict : dict Z (list string)) (s : Z) (p : string) : Prop :=
  exists file_list, In (s, file_list) size_dict /\ In p file_list.

(** The separation of sizes as the specification words it: two paths of
    one output group are never listed under different sizes. *)
Definition sizes_never_mixed (size_dict : dict Z (list string)) (w : world) : Prop :=
  forall groups,
    fst (find_duplicates_by_hash size_dict w) = Ok groups ->
    forall d paths p q s1 s2,
      In (d, paths) groups -> In p paths -> In q paths ->
      listed_under size_dict s1 p -> listed_under size_dict s2 q ->
      s1 = s2.

(** The elimination of unique contents as the specification words it: a
    visited file whose content no other visited file has is in no group of
    the scan. *)
Definition unique_content_in_no_group (directory : string) (w : world) : Prop :=
  forall groups,
    fst (full_scan directory w) = Ok groups ->
    forall p f,
      In p (walked (sys w) directory) -> lookup (sys w) p = inr f ->
      (forall q g,
          In q (walked (sys w) directory) -> lookup (sys w) q = inr g ->
          content g = content f -> q = p) ->
      forall d paths, In (d, paths) groups -> ~ In p paths.

(** A visited path is a candidate of the hash pass when its size is
    obtained and is the size of two visited paths or more. *)
Definition candidate (s : os) (visited : list string) (p : string) : bool :=
  match size_of s p with
  | Some n => (1 <? length (having (size_of s) n visited))%nat
  | None => false
  end.

(** The candidates among the visited paths whose digest is [d], in
    visiting order. *)
Definition duplicates_of (s : os) (visited : list string) (d : string) : list string :=
  filter (fun p => candidate s visited p && has_key (digest_of s) d p)%bool visited.

(** The paths of a list other than [p]. *)
Definition without (p : string) (l : list string) : list string :=
  filter (fun q => negb (String.eqb q p)) l.

End Detection.

(** ** Directories for the examples *)

(** A directory [top] without subdirectories.  Each entry has a name,
    what [os.path.getsize] answers for it and what [open] finds. *)
Record entry : Type := Entry {
  entry_name : string;
  entry_stat : string + Z;
  entry_file : string + file
}.

Definition no_such_file (path : string) : string :=
  "[Errno 2] No such file or directory: '" +++ path +++ "'".

Fixpoint listing (names : list string) : dirents :=
  match names with
  | [] => NoMore
  | name :: rest => NonDir name (listing rest)
  end.

Definition find_entry (top : string) (entries : list entry) (path : string)
  : option entry :=
  find (fun en => String.eqb (os_path_join top (entry_name en)) path) entries.

Definition flat_directory (top : string) (entries : list entry) : os :=
  {| scandir := fun path =>
       if String.eqb path top then Listing (listing (map entry_name entries))
       else ScandirError (no_such_file path);
     st_size := fun path =>
       match find_entry top entries path with
       | Some en => entry_stat en
       | None => inl (no_such_file path)
       end;
     lookup := fun path =>
       match find_entry top entries path with
       | Some en => entry_file en
       | None => inl (no_such_file path)
       end |}.

(** A regular file: its size is the length of its content. *)
Definition regular (name data : string) : entry :=
  Entry name (inr (Z.of_nat (String.length data))) (inr (File (bytes_of data) None)).

(** A file that was there for the size pass and is gone for [open]. *)
Definition vanished (top name : string) (size : Z) : entry :=
  Entry name (inr size) (inl (no_such_file (os_path_join top name))).

(** An attribute file of a virtual file system: [st_size] is the page
    size, whatever the file holds. *)
Definition attribute (name data : string) : entry :=
  Entry name (inr 4096) (inr (File (bytes_of data) None)).

Definition at_start (s : os) : world := World s [].

Definition hello_hello_world : world :=
  at_start (flat_directory "d"
    [regular "a.txt" "hello"; regular "b.txt" "hello"; regular "c.txt" "world"]).

Definition deleted_before_hashing : world :=
  at_start (flat_directory "d"
    [regular "a.txt" "hello"; vanished "d" "b.txt" 5; regular "c.txt" "hello"]).

Definition two_empty_files : world :=
  at_start (flat_directory "d" [regular "a" ""; regular "b" ""]).

Definition attributes_and_copies : world :=
  at_start (flat_directory "t"
    [attribute "mtu_a" "1500"; attribute "mtu_b" "1500";
     regular "copy_a" "1500"; regular "copy_b" "1500"]).

Definition stat_denied : world :=
  at_start (flat_directory "d"
    [regular "a.txt" "hello";
     Entry "b.txt" (inl "[Errno 13] Permission denied: 'd/b.txt'")
           (inl "[Errno 13] Permission denied: 'd/b.txt'");
     regular "c.txt" "world"; regular "e.txt" "hello"]).

Definition empty_directory : world := at_start (flat_directory "d" []).

Definition one_of_a_kind : world :=
  at_start (flat_directory "d"
    [regular "a.txt" "hello"; regular "b.txt" "hello"; regular "c.txt" "hi"]).

(** Two different blocks of 128 bytes with the same MD5 digest (the pair
    published by Wang and Yu in 2005). *)
Definition bytes_of_codes (codes : list N) : list byte :=
  map (fun n => match Byte.of_N n with Some b => b | None => "000"%byte end) codes.

Definition collision_x : list byte :=
  bytes_of_codes [
    209; 49; 221; 2; 197; 230; 238; 196; 105; 61; 154; 6; 152; 175; 249; 92;
    47; 202; 181; 135; 18; 70; 126; 171; 64; 4; 88; 62; 184; 251; 127; 137;
    85; 173; 52; 6; 9; 244; 179; 2; 131; 228; 136; 131; 37; 113; 65; 90;
    8; 81; 37; 232; 247; 205; 201; 159; 217; 29; 189; 242; 128; 55; 60; 91;
    216; 130; 62; 49; 86; 52; 143; 91; 174; 109; 172; 212; 54; 201; 25; 198;
    221; 83; 226; 180; 135; 218; 3; 253; 2; 57; 99; 6; 210; 72; 205; 160;
    233; 159; 51; 66; 15; 87; 126; 232; 206; 84; 182; 112; 128; 168; 13; 30;
    198; 152; 33; 188; 182; 168; 131; 147; 150; 249; 101; 43; 111; 247; 42; 112 ]%N.

Definition collision_y : list byte :=
  bytes_of_codes [
    209; 49; 221; 2; 197; 230; 238; 196; 105; 61; 154; 6; 152; 175; 249; 92;
    47; 202; 181; 7; 18; 70; 126; 171; 64; 4; 88; 62; 184; 251; 127; 137;
    85; 173; 52; 6; 9; 244; 179; 2; 131; 228; 136; 131; 37; 241; 65; 90;
    8; 81; 37; 232; 247; 205; 201; 159; 217; 29; 189; 114; 128; 55; 60; 91;
    216; 130; 62; 49; 86; 52; 143; 91; 174; 109; 172; 212; 54; 201; 25; 198;
    221; 83; 226; 52; 135; 218; 3; 253; 2; 57; 99; 6; 210; 72; 205; 160;
    233; 159; 51; 66; 15; 87; 126; 232; 206; 84; 182; 112; 128; 40; 13; 30;
    198; 152; 33; 188; 182; 168; 131; 147; 150; 249; 101; 171; 111; 247; 42; 112 ]%N.

Definition binary (name : string) (data : list byte) : entry :=
  Entry name (inr (Z.of_nat (length data))) (inr (File data None)).

Definition colliding_pair : world :=
  at_start (flat_directory "d"
    [binary "x.bin" collision_x; binary "y.bin" collision_y]).

Definition ten_and_twenty : world :=
  at_start (flat_directory "d"
    [regular "a.bin" "0123456789"; regular "b.bin" "0123456789          "]).

(** A file whose second [read] fails. *)
Definition failing (name data : string) : entry :=
  Entry name (inr (Z.of_nat (String.length data)))
        (inr (File (bytes_of data) (Some (1%nat, "[Errno 5] Input/output error")))).

Definition read_error_midway : world :=
  at_start (flat_directory "d"
    [regular "a.txt" "hello"; failing "b.txt" "hello"; regular "c.txt" "hello"]).

(** The paths opened and the lines printed among some events, in order. *)
Definition opens (evs : list event) : list string :=
  flat_map (fun ev => match ev with Open path => [path] | Printed _ => [] end) evs.

Definition printed (evs : list event) : list string :=
  flat_map (fun ev => match ev with Printed line => [line] | Open _ => [] end) evs.

(** The first member of each group of a dictionary, in the order of the
    dictionary. *)
Definition first_members {K A : Type} (d : dict K (list A)) : list A :=
  flat_map (fun item => firstn 1 (snd item)) d.

(** The lines of [display_duplicates] for one group, as strings. *)
Definition report_lines (item : string * list string) : list string :=
  (newline +++ "Duplicate files with hash " +++ fst item +++ ":")
    :: map (fun file_path => "  " +++ file_path) (snd item).

(** Two nested directories: a file of the top and a file of a
    subdirectory with the same content, and a directory behind a symbolic
    link, which the walk does not enter. *)
Definition nested_directories : world :=
  at_start
    {| scandir := fun path =>
         if String.eqb path "top"
         then Listing (NonDir "a.txt"
                        (SubDir "sub" false (Listing (NonDir "b.txt" NoMore))
                          (SubDir "link" true (Listing (NonDir "c.txt" NoMore))
                            NoMore)))
         else ScandirError (no_such_file path);
       st_size := fun _ => inr 5;
       lookup := fun _ => inr (File (bytes_of "hello") None) |}.

(** The directory of [hello_hello_world], listed in another order. *)
Definition world_hello_hello : world :=
  at_start (flat_directory "d"
    [regular "c.txt" "world"; regular "b.txt" "hello"; regular "a.txt" "hello"]).

Definition same_size_other_content : world :=
  at_start (flat_directory "d" [regular "a.txt" "hello"; regular "b.txt" "world"]).

(** What a run shows: its result and what it printed and opened. *)
Definition outcome {A} (r : result A * world) : result A * list event :=
  (fst r, log (snd r)).

(** The reporting of a bad root as the specification words it: for a
    root that cannot be listed, what the caller of
    [find_duplicates_by_size] sees differs from what it sees for an empty
    directory. *)
Definition root_failure_reported : Prop :=
  forall s directory e,
    scandir s directory = ScandirError e ->
    forall s' directory',
      scandir s' directory' = Listing NoMore ->
      outcome (find_duplicates_by_size directory (at_start s)) <>
      outcome (find_duplicates_by_size directory' (at_start s')).

(** ** Running the monad *)

Lemma emit_nil (w : world) : emit w [] = w.
Proof. destruct w; unfold emit; cbn. now rewrite app_nil_r. Qed.

Lemma emit_emit (w : world) (a b : list event) :
  emit (emit w a) b = emit w (a ++ b).
Proof. unfold emit; cbn. now rewrite app_assoc. Qed.

Lemma sys_emit (w : world) (evs : list event) : sys (emit w evs) = sys w.
Proof. reflexivity. Qed.

(** A loop whose body never raises, changes the state by [step] and emits
    [evs], is a fold that emits the events of its iterations in order. *)
Lemma for_each_fold {A S : Type} (step : os -> A -> S -> S) (evs : os -> A -> list event)
      (body : A -> S -> M S) :
  (forall x s w, body x s w = (Ok (step (sys w) x s), emit w (evs (sys w) x))) ->
  forall l s w,
    for_each l body s w =
    (Ok (fold_left (fun s x => step (sys w) x s) l s),
     emit w (flat_map (evs (sys w)) l)).
Proof.
  intros Hbody. induction l as [|x l IH]; intros s w; cbn.
  - unfold ret. now rewrite emit_nil.
  - unfold bind. rewrite Hbody, IH, emit_emit, sys_emit. reflexivity.
Qed.

Section Reading.

Context {HA : HashAlgorithm}.

Lemma read_blocks_cons (block_size : Z) (f : handle) (h : hasher)
      (b : byte) (buf : list byte) :
  read_blocks block_size f h (b :: buf) = stream block_size f (update h (b :: buf)).
Proof.
  rewrite read_blocks_equation_2. unfold stream.
  destruct (inspect (read f block_size)) as [[e | [buf2 f']] E];
    cbn [read_blocks_unfold_clause_2]; rewrite E; reflexivity.
Qed.

Lemma read_blocks_step (block_size : Z) (f : handle) (h : hasher) (buf : list byte) :
  read_blocks block_size f h buf =
  match buf with
  | [] => inr h
  | _ :: _ => stream block_size f (update h buf)
  end.
Proof.
  destruct buf; [apply read_blocks_equation_1 | apply read_blocks_cons].
Qed.

Lemma reached_next (k n len : nat) :
  (0 < n)%nat -> (0 < len)%nat ->
  reached k n (len - n) = reached (S k) n len.
Proof.
  intros Hn Hlen. unfold reached. cbn [Nat.eqb orb].
  replace (S k - 1)%nat with k by lia.
  destruct k as [|k]; cbn [Nat.eqb orb].
  - symmetry. apply Nat.ltb_lt. lia.
  - replace (S k - 1)%nat with k by lia.
    destruct (Nat.ltb_spec (k * n) (len - n)), (Nat.ltb_spec (S k * n) len);
      try reflexivity; nia.
Qed.

(** The outcome of streaming a file in blocks of a positive size: the
    error of the file's fault when the failing [read] is reached,
    otherwise the hash object fed with every byte of the file. *)
Lemma stream_spec (block_size : Z) :
  0 < block_size ->
  forall (len : nat) (f : handle) (h : hasher),
    length (unread f) = len ->
    stream block_size f h =
    match reads_left f with
    | Some (k, e) =>
        if reached k (Z.to_nat block_size) len then inl (OSError e)
        else inr (update h (unread f))
    | None => inr (update h (unread f))
    end.
Proof.
  intros Hpos len. induction len as [len IH] using lt_wf_ind.
  intros [u budget] h Hlen. cbn [unread reads_left] in *.
  assert (Hn : (0 < Z.to_nat block_size)%nat) by lia.
  set (n := Z.to_nat block_size) in *.
  assert (Hread : forall budget',
             read_blocks block_size (Handle (skipn n u) budget') h (firstn n u) =
             match budget' with
             | Some (k, e) =>
                 if reached (S k) n len then inl (OSError e) else inr (update h u)
             | None => inr (update h u)
             end).
  { intros budget'. rewrite read_blocks_step.
    destruct u as [|b u'].
    - rewrite firstn_nil. subst len. destruct budget' as [[k e]|];
        rewrite ?update_nil; reflexivity.
    - destruct n as [|n']; [lia |]. rewrite firstn_cons.
      rewrite (IH (length (skipn (S n') (b :: u'))) ltac:(cbn [skipn]; rewrite length_skipn; cbn [length] in Hlen; lia)
                 (Handle (skipn (S n') (b :: u')) budget') _ eq_refl).
      cbn [unread reads_left].
      rewrite update_app, <- firstn_cons, firstn_skipn.
      destruct budget' as [[k e]|]; [| reflexivity].
      rewrite length_skipn, Hlen, reached_next by (cbn [length] in Hlen; lia).
      reflexivity. }
  unfold stream, read. cbn [unread reads_left].
  destruct (Z.ltb_spec block_size (-1)); [lia |].
  destruct (Z.eqb_spec block_size (-1)); [lia |].
  fold n.
  destruct budget as [[[|k] e]|].
  - reflexivity.
  - exact (Hread (Some (k, e))).
  - exact (Hread None).
Qed.

Lemma hash_file_run (file_path : string) (block_size : Z) (w : world) :
  hash_file file_path block_size w =
  match hashing (sys w) file_path block_size with
  | inr h => (Ok (Some (hexdigest h)), emit w [Open file_path])
  | inl (OSError e) =>
      (Ok None,
       emit w [Open file_path;
               Printed ("Error reading " +++ file_path +++ ": " +++ e)])
  | inl (ValueError m) => (Raise (ValueError m), emit w [Open file_path])
  end.
Proof.
  unfold hash_file, hashing, bind, try_except_OSError, open_rb, stream.
  destruct (lookup (sys w) file_path) as [e | f].
  - unfold print, ret. now rewrite emit_emit.
  - unfold lift. cbn [sys emit].
    destruct (read (Handle (content f) (fault f)) block_size) as [[e|m] | [buf f']].
    + unfold print, ret. now rewrite emit_emit.
    + reflexivity.
    + cbn [fst snd].
      destruct (read_blocks block_size f' new buf) as [[e|m] | h].
      * unfold print, ret. now rewrite emit_emit.
      * reflexivity.
      * reflexivity.
Qed.

(** A block size of 0 is no block size: the first [read] returns nothing
    and the loop is not entered. *)
Lemma zero_block_size_reads_nothing (s : os) (file_path : string) (f : file) :
  lookup s file_path = inr f ->
  fault f = None ->
  hashing s file_path 0 = inr new.
Proof.
  intros Hf Hfault. unfold hashing, stream, read. rewrite Hf. cbn [reads_left unread].
  rewrite Hfault. cbn. apply read_blocks_equation_1.
Qed.

End Reading.

(** ** Grouping *)

Section GroupingFacts.

Context {K A : Type} {EK : EqKey K}.

Variable key : A -> option K.

Lemma key_eqb_refl (k : K) : key_eqb k k = true.
Proof. now apply key_eqb_eq. Qed.

Lemma key_eqb_neq (a b : K) : a <> b -> key_eqb a b = false.
Proof.
  intros Hne. destruct (key_eqb a b) eqn:E; [| reflexivity].
  apply key_eqb_eq in E. contradiction.
Qed.

Lemma dict_get_append_same (d : dict K (list A)) (k : K) (v : A) :
  dict_get (dict_append d k v) k =
  Some (match dict_get d k with Some vs => vs ++ [v] | None => [v] end).
Proof.
  unfold dict_get. induction d as [|[k' vs] d IH]; cbn.
  - now rewrite key_eqb_refl.
  - destruct (key_eqb k' k) eqn:E; cbn; rewrite E; [reflexivity | exact IH].
Qed.

Lemma dict_get_append_other (d : dict K (list A)) (k k' : K) (v : A) :
  k <> k' -> dict_get (dict_append d k v) k' = dict_get d k'.
Proof.
  intros Hne. unfold dict_get. induction d as [|[k0 vs] d IH]; cbn.
  - now rewrite (key_eqb_neq Hne).
  - destruct (key_eqb k0 k) eqn:E; cbn.
    + apply key_eqb_eq in E. subst k0. now rewrite (key_eqb_neq Hne).
    + destruct (key_eqb k0 k'); [reflexivity | exact IH].
Qed.

Lemma keys_append (d : dict K (list A)) (k : K) (v : A) :
  forall k', In k' (keys (dict_append d k v)) <-> k' = k \/ In k' (keys d).
Proof.
  intros k'. unfold keys. induction d as [|[k0 vs] d IH]; cbn.
  - intuition.
  - destruct (key_eqb k0 k) eqn:E; cbn.
    + apply key_eqb_eq in E. subst k0. intuition.
    + rewrite IH. intuition.
Qed.

Lemma NoDup_keys_append (d : dict K (list A)) (k : K) (v : A) :
  NoDup (keys d) -> NoDup (keys (dict_append d k v)).
Proof.
  unfold keys. induction d as [|[k0 vs] d IH]; cbn; intros Hnd.
  - constructor; [intros [] | constructor].
  - destruct (key_eqb k0 k) eqn:E; cbn; [exact Hnd |].
    inversion Hnd as [|? ? Hnotin Hnd']; subst. constructor; [| now apply IH].
    intros Hin. apply (keys_append d k v) in Hin. destruct Hin as [-> | Hin].
    + now rewrite key_eqb_refl in E.
    + contradiction.
Qed.

Lemma dict_get_In (d : dict K (list A)) (k : K) (vs : list A) :
  dict_get d k = Some vs -> In (k, vs) d.
Proof.
  unfold dict_get. induction d as [|[k0 vs0] d IH]; cbn; [discriminate |].
  destruct (key_eqb k0 k) eqn:E; cbn.
  - intros [= <-]. apply key_eqb_eq in E. subst. now left.
  - intros Hget. right. now apply IH.
Qed.

Lemma In_dict_get (d : dict K (list A)) (k : K) (vs : list A) :
  NoDup (keys d) -> In (k, vs) d -> dict_get d k = Some vs.
Proof.
  unfold dict_get, keys. induction d as [|[k0 vs0] d IH]; cbn; [intros _ [] |].
  intros Hnd [[= -> ->] | Hin].
  - now rewrite key_eqb_refl.
  - inversion Hnd as [|? ? Hnotin Hnd']; subst.
    destruct (key_eqb k0 k) eqn:E; [| now apply IH].
    apply key_eqb_eq in E. subst k0. exfalso. apply Hnotin.
    change k with (fst (k, vs)). now apply in_map.
Qed.

Lemma having_app (k : K) (l l' : list A) :
  having key k (l ++ l') = having key k l ++ having key k l'.
Proof. apply filter_app. Qed.

Lemma grouped_add (d : dict K (list A)) (l : list A) (x : A) :
  grouped key d l -> grouped key (add_item key d x) (l ++ [x]).
Proof.
  intros [Hnd Hget]. unfold add_item. split.
  - destruct (key x); [now apply NoDup_keys_append | exact Hnd].
  - intros k. rewrite having_app. unfold having at 2. cbn [filter]. unfold has_key.
    destruct (key x) as [kx|] eqn:Ekey.
    + destruct (key_eqb kx k) eqn:E.
      * apply key_eqb_eq in E. subst kx. rewrite dict_get_append_same, Hget.
        destruct (having key k l); reflexivity.
      * rewrite app_nil_r, dict_get_append_other, Hget; [reflexivity |].
        intros ->. now rewrite key_eqb_refl in E.
    + now rewrite app_nil_r.
Qed.

Lemma grouped_fold (l : list A) :
  forall d l0, grouped key d l0 -> grouped key (fold_left (add_item key) l d) (l0 ++ l).
Proof.
  induction l as [|x l IH]; intros d l0 Hd; cbn [fold_left].
  - now rewrite app_nil_r.
  - replace (l0 ++ x :: l) with ((l0 ++ [x]) ++ l) by now rewrite <- app_assoc.
    apply IH. now apply grouped_add.
Qed.

Lemma grouped_group_by (l : list A) : grouped key (group_by key l) l.
Proof.
  apply (grouped_fold l (d := []) (l0 := [])). split; [constructor | reflexivity].
Qed.

(** The groups both passes return: under each key that at least two
    items have, these items in their order; nothing else. *)
Lemma more_than_one_group_by (l : list A) (k : K) (vs : list A) :
  In (k, vs) (more_than_one (group_by key l)) <->
  vs = having key k l /\ (1 < length vs)%nat.
Proof.
  destruct (grouped_group_by l) as [Hnd Hget].
  unfold more_than_one. rewrite filter_In. cbn [snd]. rewrite Nat.ltb_lt.
  split.
  - intros [Hin Hlen]. split; [| exact Hlen].
    apply (In_dict_get _ _ _ Hnd) in Hin. rewrite Hget in Hin.
    destruct (having key k l); [discriminate | now injection Hin].
  - intros [-> Hlen]. split; [| exact Hlen].
    apply dict_get_In. rewrite Hget.
    destruct (having key k l); [cbn in Hlen; lia | reflexivity].
Qed.

Lemma NoDup_keys_more_than_one (l : list A) :
  NoDup (keys (more_than_one (group_by key l))).
Proof.
  destruct (grouped_group_by l) as [Hnd _]. revert Hnd.
  unfold more_than_one, keys. generalize (group_by key l).
  induction d as [|[k vs] d IH]; cbn [filter map fst snd]; intros Hnd; [constructor |].
  inversion Hnd as [|? ? Hnotin Hnd']; subst.
  destruct (1 <? length vs)%nat; cbn [map fst]; [| now apply IH].
  constructor; [| now apply IH].
  intros Hin. apply Hnotin. apply in_map_iff in Hin. destruct Hin as [item [Hk Hin]].
  apply filter_In in Hin. apply in_map_iff. exists item. now split.
Qed.

Lemma In_having (k : K) (l : list A) (x : A) :
  In x (having key k l) <-> In x l /\ key x = Some k.
Proof.
  unfold having, has_key. rewrite filter_In. split; intros [Hin Hk]; split; trivial.
  - destruct (key x) as [k'|]; [| discriminate]. apply key_eqb_eq in Hk. now subst.
  - rewrite Hk. apply key_eqb_refl.
Qed.

End GroupingFacts.

(** A returned group is the list of the items that have its key. *)
Ltac members_of H :=
  apply more_than_one_group_by in H; destruct H as [-> _].

Lemma filter_at_most_one {A : Type} (f : A -> bool) (l : list A) (p : A) :
  NoDup l ->
  (forall x, In x l -> f x = true -> x = p) ->
  (length (filter f l) <= 1)%nat.
Proof.
  intros Hnd. induction Hnd as [|x l Hnotin Hnd IH]; intros Hall; cbn [filter].
  - cbn. lia.
  - destruct (f x) eqn:Efx.
    + assert (Hempty : filter f l = []).
      { destruct (filter f l) as [|y rest] eqn:E; [reflexivity | exfalso].
        assert (Hy : In y (filter f l)) by (rewrite E; now left).
        apply filter_In in Hy. destruct Hy as [Hy Hfy].
        apply Hnotin.
        rewrite (Hall x (or_introl eq_refl) Efx), <- (Hall y (or_intror Hy) Hfy).
        exact Hy. }
      rewrite Hempty. cbn. lia.
    + apply IH. intros y Hy. apply Hall. now right.
Qed.

Lemma filter_subsequence {A : Type} (f : A -> bool) (l : list A) :
  subsequence (filter f l) l.
Proof.
  induction l as [|x l IH]; cbn; [constructor |].
  destruct (f x); now constructor.
Qed.

(** ** The two passes as folds *)

Lemma fold_left_map {A B S : Type} (f : S -> B -> S) (g : A -> B) (l : list A) (s : S) :
  fold_left (fun s x => f s (g x)) l s = fold_left f (map g l) s.
Proof. revert s. induction l as [|x l IH]; intros s; cbn; [reflexivity | apply IH]. Qed.

Lemma fold_left_flat_map {A B S : Type} (f : S -> B -> S) (g : A -> list B)
      (l : list A) (s : S) :
  fold_left (fun s x => fold_left f (g x) s) l s = fold_left f (flat_map g l) s.
Proof.
  revert s. induction l as [|x l IH]; intros s; cbn; [reflexivity |].
  now rewrite fold_left_app, IH.
Qed.

Lemma flat_map_map {A B C : Type} (f : B -> list C) (g : A -> B) (l : list A) :
  flat_map (fun x => f (g x)) l = flat_map f (map g l).
Proof. induction l as [|x l IH]; cbn; [reflexivity | now rewrite IH]. Qed.

Lemma flat_map_flat_map {A B C : Type} (f : B -> list C) (g : A -> list B) (l : list A) :
  flat_map (fun x => flat_map f (g x)) l = flat_map f (flat_map g l).
Proof.
  induction l as [|x l IH]; cbn; [reflexivity |].
  now rewrite flat_map_app, IH.
Qed.

Lemma flat_map_id {A : Type} (l : list (list A)) : flat_map (fun x => x) l = concat l.
Proof. induction l as [|x l IH]; cbn; [reflexivity | now rewrite IH]. Qed.

Lemma fold_left_unchanged {A S : Type} (l : list A) (s : S) :
  fold_left (fun s _ => s) l s = s.
Proof. induction l as [|x l IH]; cbn; [reflexivity | exact IH]. Qed.

Lemma flat_map_singleton {A B : Type} (f : A -> B) (l : list A) :
  flat_map (fun x => [f x]) l = map f l.
Proof. induction l as [|x l IH]; cbn; [reflexivity | now rewrite IH]. Qed.

Lemma find_duplicates_by_size_run (directory : string) (w : world) :
  find_duplicates_by_size directory w =
  (Ok (more_than_one (group_by (size_of (sys w)) (walked (sys w) directory))),
   emit w (flat_map (size_events (sys w)) (walked (sys w) directory))).
Proof.
  unfold find_duplicates_by_size, bind, os_walk, walked.
  rewrite (for_each_fold
             (fun s triple d => fold_left (add_item (size_of s)) (joined triple) d)
             (fun s triple => flat_map (size_events s) (joined triple))).
  - unfold ret, group_by.
    now rewrite fold_left_flat_map, flat_map_flat_map.
  - intros [[root dirs] files] d w'. unfold joined.
    rewrite (for_each_fold
               (fun s file d => add_item (size_of s) d (os_path_join root file))
               (fun s file => size_events s (os_path_join root file))).
    + now rewrite (fold_left_map (add_item (size_of (sys w'))) (os_path_join root)),
        (flat_map_map (size_events (sys w')) (os_path_join root)).
    + intros file d' w''.
      unfold try_except_OSError, bind, os_path_getsize, add_item, size_of, size_events,
        print, ret.
      destruct (st_size (sys w'') (os_path_join root file)) as [e | n].
      * reflexivity.
      * now rewrite emit_nil.
Qed.

Section Hashing.

Context {HA : HashAlgorithm}.

(** With a positive block size, hashing ends with the error of the file
    or with a hash object: no other exception leaves [hash_file]. *)
Lemma hashing_cases (s : os) (file_path : string) (block_size : Z) :
  0 < block_size ->
  (exists e, hashing s file_path block_size = inl (OSError e)) \/
  (exists f, lookup s file_path = inr f /\
             hashing s file_path block_size = inr (update new (content f))).
Proof.
  intros Hpos. unfold hashing. destruct (lookup s file_path) as [e | f].
  - left. now exists e.
  - rewrite (stream_spec Hpos (Handle (content f) (fault f)) new eq_refl).
    cbn [reads_left unread].
    destruct (fault f) as [[k e]|].
    + destruct (reached k (Z.to_nat block_size) (length (content f))).
      * left. now exists e.
      * right. now exists f.
    + right. now exists f.
Qed.

Lemma truthy_hexdigest (h : hasher) : truthy (Some (hexdigest h)) = true.
Proof.
  unfold truthy. destruct (String.eqb_spec (hexdigest h) "") as [E | _]; [| reflexivity].
  pose proof (hexdigest_length h) as Hlen. rewrite E in Hlen. cbn in Hlen.
  pose proof digest_size_pos. lia.
Qed.

Lemma digest_key_digest_of (s : os) (file_path : string) :
  digest_key s file_path = digest_of s file_path.
Proof.
  unfold digest_key, digest_of. destruct (hashing s file_path default_block_size); [reflexivity |].
  now rewrite truthy_hexdigest.
Qed.

Lemma hash_file_default_run (file_path : string) (w : world) :
  hash_file file_path default_block_size w =
  (Ok (digest_of (sys w) file_path), emit w (hash_events (sys w) file_path)).
Proof.
  rewrite hash_file_run. unfold digest_of, hash_events.
  destruct (hashing_cases (sys w) file_path (block_size := default_block_size) eq_refl)
    as [[e ->] | [f [_ ->]]]; reflexivity.
Qed.

Lemma find_duplicates_by_hash_run (size_dict : dict Z (list string)) (w : world) :
  find_duplicates_by_hash size_dict w =
  (Ok (more_than_one (group_by (digest_key (sys w)) (concat (values size_dict)))),
   emit w (flat_map (hash_events (sys w)) (concat (values size_dict)))).
Proof.
  unfold find_duplicates_by_hash, bind.
  rewrite (for_each_fold
             (fun s file_list d => fold_left (add_item (digest_key s)) file_list d)
             (fun s file_list => flat_map (hash_events s) file_list)).
  - unfold ret, group_by.
    now rewrite (fold_left_flat_map (add_item (digest_key (sys w))) (fun x => x)),
      (flat_map_flat_map (hash_events (sys w)) (fun x => x)), flat_map_id.
  - intros file_list d w'.
    apply (for_each_fold (fun s file_path d => add_item (digest_key s) d file_path)
                         hash_events).
    intros file_path d' w''. unfold bind. rewrite hash_file_default_run.
    unfold add_item, digest_key, ret.
    destruct (digest_of (sys w'') file_path) as [h|]; [| reflexivity].
    destruct (truthy (Some h)); reflexivity.
Qed.

Lemma display_duplicates_run (duplicate_dict : dict string (list string)) (w : world) :
  display_duplicates duplicate_dict w =
  (Ok tt, emit w (flat_map group_lines duplicate_dict)).
Proof.
  unfold display_duplicates.
  rewrite (for_each_fold (fun _ _ u => u) (fun _ item => group_lines item)).
  - now rewrite fold_left_unchanged.
  - intros [file_hash file_paths] [] w'. unfold bind, print, group_lines. cbn [fst snd].
    rewrite (for_each_fold (fun _ _ u => u)
               (fun _ file_path => [Printed ("  " +++ file_path)])).
    + now rewrite emit_emit, fold_left_unchanged, flat_map_singleton.
    + intros file_path [] w''. reflexivity.
Qed.

End Hashing.

(** ** The groups of the two passes *)

Lemma group_by_ext {K A : Type} {EK : EqKey K} (key key' : A -> option K) (l : list A) :
  (forall x, key x = key' x) -> group_by key l = group_by key' l.
Proof.
  intros Hext. unfold group_by. generalize (@nil (K * list A)).
  induction l as [|x l IH]; intros d; cbn; [reflexivity |].
  rewrite IH. unfold add_item at 2 4. now rewrite Hext.
Qed.

(** Items without a key leave no trace in the groups. *)
Lemma group_by_filter {K A : Type} {EK : EqKey K} (key : A -> option K)
      (keep : A -> bool) (l : list A) :
  (forall x, keep x = false -> key x = None) ->
  group_by key (filter keep l) = group_by key l.
Proof.
  intros Hkeep. unfold group_by. generalize (@nil (K * list A)).
  induction l as [|x l IH]; intros d; cbn [filter fold_left]; [reflexivity |].
  destruct (keep x) eqn:E; cbn [fold_left].
  - apply IH.
  - rewrite IH. unfold add_item at 3. now rewrite (Hkeep x E).
Qed.

Lemma In_concat_values {K V : Type} (d : dict K (list V)) (v : V) :
  In v (concat (values d)) <-> exists k l, In (k, l) d /\ In v l.
Proof.
  rewrite in_concat. unfold values. split.
  - intros [l [Hl Hv]]. apply in_map_iff in Hl. destruct Hl as [[k l'] [<- Hin]].
    now exists k, l'.
  - intros [k [l [Hin Hv]]]. exists l. split; [| exact Hv].
    apply in_map_iff. now exists (k, l).
Qed.

Lemma size_groups_spec (directory : string) (w : world) (size_groups : dict Z (list string)) :
  fst (find_duplicates_by_size directory w) = Ok size_groups ->
  forall s paths,
    In (s, paths) size_groups <->
    paths = having (size_of (sys w)) s (walked (sys w) directory) /\ (1 < length paths)%nat.
Proof.
  rewrite find_duplicates_by_size_run. cbn [fst]. intros [= <-] s paths.
  apply more_than_one_group_by.
Qed.

Section HashGroups.

Context {HA : HashAlgorithm}.

Lemma hash_groups_spec (size_dict : dict Z (list string)) (w : world)
      (groups : dict string (list string)) :
  fst (find_duplicates_by_hash size_dict w) = Ok groups ->
  forall d paths,
    In (d, paths) groups <->
    paths = having (digest_of (sys w)) d (concat (values size_dict))
    /\ (1 < length paths)%nat.
Proof.
  rewrite find_duplicates_by_hash_run. cbn [fst]. intros [= <-] d paths.
  rewrite (group_by_ext _ _ _ (digest_key_digest_of (sys w))).
  apply more_than_one_group_by.
Qed.

(** A digest [hash_file] returns is the digest of the whole content. *)
Lemma digest_of_Some (s : os) (file_path d : string) :
  digest_of s file_path = Some d ->
  exists f, lookup s file_path = inr f /\ one_pass (content f) = d.
Proof.
  unfold digest_of.
  destruct (hashing_cases s file_path (block_size := default_block_size) eq_refl)
    as [[e ->] | [f [Hf ->]]]; [discriminate |].
  intros [= <-]. now exists f.
Qed.

Lemma group_member (size_dict : dict Z (list string)) (w : world)
      (groups : dict string (list string)) (d : string) (paths : list string) (p : string) :
  fst (find_duplicates_by_hash size_dict w) = Ok groups ->
  In (d, paths) groups -> In p paths ->
  In p (concat (values size_dict)) /\ digest_of (sys w) p = Some d.
Proof.
  intros Hrun Hin Hp. apply (hash_groups_spec _ _ Hrun) in Hin.
  destruct Hin as [-> _]. now apply In_having in Hp.
Qed.

Lemma same_group_same_digest (size_dict : dict Z (list string)) (w : world)
      (groups : dict string (list string)) :
  fst (find_duplicates_by_hash size_dict w) = Ok groups ->
  forall d paths p q,
    In (d, paths) groups -> In p paths -> In q paths ->
    exists fp fq,
      lookup (sys w) p = inr fp /\ lookup (sys w) q = inr fq /\
      one_pass (content fp) = d /\ one_pass (content fq) = d /\
      (content fp = content fq \/
       (content fp <> content fq /\ one_pass (content fp) = one_pass (content fq))).
Proof.
  intros Hrun d paths p q Hin Hp Hq.
  destruct (group_member _ _ _ _ _ Hrun Hin Hp) as [_ Hdp].
  destruct (group_member _ _ _ _ _ Hrun Hin Hq) as [_ Hdq].
  apply digest_of_Some in Hdp, Hdq.
  destruct Hdp as [fp [Hfp Hp']], Hdq as [fq [Hfq Hq']].
  exists fp, fq. repeat split; trivial.
  destruct (list_eq_dec Byte.byte_eq_dec (content fp) (content fq)) as [E | NE].
  - now left.
  - right. split; [exact NE | congruence].
Qed.

(** C1: two paths of one group of the output of [find_duplicates_by_hash]
    name files whose whole contents have the digest of the group; their
    contents are byte-identical, or they are a collision of the digest. *)
Theorem digest_groups_sound (size_dict : dict Z (list string)) (w : world)
        (groups : dict string (list string)) :
  fst (find_duplicates_by_hash size_dict w) = Ok groups ->
  forall d paths p q,
    In (d, paths) groups -> In p paths -> In q paths ->
    exists fp fq,
      lookup (sys w) p = inr fp /\ lookup (sys w) q = inr fq /\
      one_pass (content fp) = d /\ one_pass (content fq) = d /\
      (content fp = content fq \/
       (content fp <> content fq /\ one_pass (content fp) = one_pass (content fq))).
Proof. exact (same_group_same_digest size_dict w (groups := groups)). Qed.

(** C10: a group of the output of [find_duplicates_by_hash] holds only
    paths of the lists of the input, and holds them in the order in which
    the lists of the input, one after the other, have them: the group is
    the traversal with the paths of other digests left out. *)
Theorem hash_groups_from_input (size_dict : dict Z (list string)) (w : world)
        (groups : dict string (list string)) :
  fst (find_duplicates_by_hash size_dict w) = Ok groups ->
  forall d paths,
    In (d, paths) groups ->
    (forall p, In p paths -> exists s file_list, In (s, file_list) size_dict /\ In p file_list)
    /\ paths = filter (has_key (digest_of (sys w)) d) (concat (values size_dict))
    /\ subsequence paths (concat (values size_dict)).
Proof.
  intros Hrun d paths Hin. split; [| split].
  - intros p Hp. apply In_concat_values.
    now destruct (group_member _ _ _ _ _ Hrun Hin Hp).
  - now apply (hash_groups_spec _ _ Hrun) in Hin.
  - apply (hash_groups_spec _ _ Hrun) in Hin. destruct Hin as [-> _].
    apply filter_subsequence.
Qed.

(** C7: a file that can be opened and whose reads do not fail is hashed,
    block by block of any positive size, to the digest of its whole
    content computed in one pass; the block size has no part in it. *)
Theorem hash_file_streams (w : world) (file_path : string) (f : file) (block_size : Z) :
  lookup (sys w) file_path = inr f ->
  (forall k e, fault f = Some (k, e) ->
               reached k (Z.to_nat block_size) (length (content f)) = false) ->
  0 < block_size ->
  fst (hash_file file_path block_size w) = Ok (Some (one_pass (content f))).
Proof.
  intros Hf Hfault Hpos. rewrite hash_file_run. unfold hashing. rewrite Hf.
  rewrite (stream_spec Hpos (Handle (content f) (fault f)) new eq_refl).
  cbn [reads_left unread].
  destruct (fault f) as [[k e]|]; [| reflexivity].
  now rewrite (Hfault k e eq_refl).
Qed.

End HashGroups.

(** ** Failures of single files *)

Lemma without_key_None {K : Type} (key : string -> option K) (p : string) :
  key p = None ->
  forall x, negb (String.eqb x p) = false -> key x = None.
Proof.
  intros Hp x Hx. apply negb_false_iff, String.eqb_eq in Hx. now subst.
Qed.

Lemma not_In_having_None {K : Type} {EK : EqKey K} (key : string -> option K)
      (k : K) (l : list string) (p : string) :
  key p = None -> ~ In p (having key k l).
Proof. intros Hp Hin. apply In_having in Hin. destruct Hin as [_ Hk]. congruence. Qed.

(** C4: a file whose size cannot be obtained does not stop
    [find_duplicates_by_size]: the pass returns, a diagnostic for the file
    is printed when the walk visits it, the file is in no group, and the
    groups are those of the other files visited. *)
Theorem stat_failure_skips_file (directory : string) (w : world) (p e : string) :
  st_size (sys w) p = inl e ->
  exists size_groups evs,
    find_duplicates_by_size directory w = (Ok size_groups, emit w evs) /\
    (In p (walked (sys w) directory) ->
     In (Printed ("Error accessing " +++ p +++ ": " +++ e)) evs) /\
    (forall s paths, In (s, paths) size_groups -> ~ In p paths) /\
    size_groups =
      more_than_one (group_by (size_of (sys w)) (without p (walked (sys w) directory))).
Proof.
  intros Hstat.
  assert (Hkey : size_of (sys w) p = None) by (unfold size_of; now rewrite Hstat).
  eexists _, _. split; [apply find_duplicates_by_size_run |]. split; [| split].
  - intros Hin. apply in_flat_map. exists p. split; [exact Hin |].
    unfold size_events. rewrite Hstat. now left.
  - intros s paths Hin. members_of Hin.
    now apply not_In_having_None.
  - unfold without. now rewrite (group_by_filter _ _ _ (without_key_None _ _ Hkey)).
Qed.

Section HashFailures.

Context {HA : HashAlgorithm}.

Lemma fails_to_hash_hashing (s : os) (file_path e : string) :
  fails_to_hash s file_path e <-> hashing s file_path default_block_size = inl (OSError e).
Proof.
  unfold fails_to_hash, hashing. destruct (lookup s file_path) as [e' | f].
  - split.
    + intros [[= ->] | [f [k [Hf _]]]]; [reflexivity | discriminate].
    + intros [= ->]. now left.
  - rewrite (stream_spec (block_size := default_block_size) eq_refl
               (Handle (content f) (fault f)) new eq_refl).
    cbn [reads_left unread]. split.
    + intros [Hf | [f' [k [[= <-] [Hfault Hreached]]]]]; [discriminate |].
      now rewrite Hfault, Hreached.
    + intros Hout. right. exists f.
      destruct (fault f) as [[k e']|]; [| discriminate].
      destruct (reached k (Z.to_nat default_block_size) (length (content f))) eqn:E; [| discriminate].
      injection Hout as ->. now exists k.
Qed.

(** C5: when opening or reading a file fails, [hash_file] returns no
    digest and prints a diagnostic; [find_duplicates_by_hash] goes on and
    returns, with the diagnostic in its output when the file is listed,
    the file in none of its groups, and the groups of the other files. *)
Theorem hash_failure_excludes_file (size_dict : dict Z (list string)) (w : world)
        (p e : string) :
  fails_to_hash (sys w) p e ->
  hash_file p default_block_size w =
    (Ok None, emit w [Open p; Printed ("Error reading " +++ p +++ ": " +++ e)]) /\
  exists groups evs,
    find_duplicates_by_hash size_dict w = (Ok groups, emit w evs) /\
    (In p (concat (values size_dict)) ->
     In (Printed ("Error reading " +++ p +++ ": " +++ e)) evs) /\
    (forall d paths, In (d, paths) groups -> ~ In p paths) /\
    groups =
      more_than_one
        (group_by (digest_of (sys w)) (without p (concat (values size_dict)))).
Proof.
  intros Hfail. apply fails_to_hash_hashing in Hfail.
  assert (Hkey : digest_of (sys w) p = None) by (unfold digest_of; now rewrite Hfail).
  split.
  - rewrite hash_file_run, Hfail. reflexivity.
  - eexists _, _. split; [apply find_duplicates_by_hash_run |]. split; [| split].
    + intros Hin. apply in_flat_map. exists p. split; [exact Hin |].
      unfold hash_events. rewrite Hfail. right. now left.
    + intros d paths Hin. members_of Hin.
      apply not_In_having_None. now rewrite digest_key_digest_of.
    + rewrite (group_by_ext _ _ _ (digest_key_digest_of (sys w))).
      unfold without. now rewrite (group_by_filter _ _ _ (without_key_None _ _ Hkey)).
Qed.

End HashFailures.

(** ** Groups of one *)

Lemma two_of_more_than_one {K V : Type} (d : dict K (list V)) (k : K) (vs : list V) :
  In (k, vs) (more_than_one d) -> (2 <= length vs)%nat.
Proof.
  unfold more_than_one. rewrite filter_In. cbn [snd]. rewrite Nat.ltb_lt. lia.
Qed.

(** A key that at most one item has is the key of no group. *)
Lemma unique_key_in_no_group {K : Type} {EK : EqKey K} (key : string -> option K)
      (l : list string) (p : string) (k : K) :
  key p = Some k ->
  (length (having key k l) <= 1)%nat ->
  forall k' paths, In (k', paths) (more_than_one (group_by key l)) -> ~ In p paths.
Proof.
  intros Hkey Huniq k' paths Hin Hp.
  apply more_than_one_group_by in Hin. destruct Hin as [-> Hlen].
  apply In_having in Hp. destruct Hp as [_ Hk].
  assert (k' = k) by congruence. subst k'. lia.
Qed.

Section Singletons.

Context {HA : HashAlgorithm}.

Lemma In_Open_hash_events (s : os) (l : list string) (p : string) :
  In (Open p) (flat_map (hash_events s) l) -> In p l.
Proof.
  rewrite in_flat_map. intros [q [Hq Hev]]. unfold hash_events in Hev.
  destruct Hev as [[= ->] | Hev]; [exact Hq |].
  destruct (hashing s q default_block_size) as [[e|m]|h]; cbn in Hev;
    intuition discriminate.
Qed.

(** A file that can be read, of a content that no other listed file
    has and of a digest in which no listed file of another content
    collides with it, has a digest of its own. *)
Lemma unique_content_unique_digest (s : os) (listed : list string) (p d : string)
      (f : file) :
  NoDup listed ->
  lookup s p = inr f ->
  (forall q g, In q listed -> lookup s q = inr g -> q <> p -> content g <> content f) ->
  (forall q g, In q listed -> lookup s q = inr g -> content g <> content f ->
               one_pass (content g) <> one_pass (content f)) ->
  digest_of s p = Some d ->
  (length (having (digest_of s) d listed) <= 1)%nat.
Proof.
  intros Hnd Hf Huniq Hcoll Hd. apply filter_at_most_one with (p := p); [exact Hnd |].
  intros q Hq Hkey.
  destruct (string_dec q p) as [E | NE]; [exact E | exfalso].
  assert (Hdq : digest_of s q = Some d).
  { unfold has_key in Hkey. destruct (digest_of s q) as [d'|]; [| discriminate].
    apply String.eqb_eq in Hkey. now subst. }
  apply digest_of_Some in Hd, Hdq.
  destruct Hd as [f' [Hf' Hd]], Hdq as [g [Hg Hdq]].
  assert (f' = f) by congruence. subst f'.
  apply (Hcoll q g Hq Hg (Huniq q g Hq Hg NE)). congruence.
Qed.

(** C3, as the code has it: the groups that [find_duplicates_by_size]
    and [find_duplicates_by_hash] return have two members or more.  A file
    whose size no other visited file has is in no group of either pass
    and is never opened for hashing.  A file whose digest no other listed
    file has is in no group of the hash pass; such is a file whose content
    no other listed file has, when no listed file of another content has
    its digest. *)
Theorem singleton_groups_removed :
  (forall directory w,
      exists size_groups,
        fst (find_duplicates_by_size directory w) = Ok size_groups /\
        (forall s paths, In (s, paths) size_groups -> (2 <= length paths)%nat) /\
        (forall p s,
            size_of (sys w) p = Some s ->
            (length (having (size_of (sys w)) s (walked (sys w) directory)) <= 1)%nat ->
            (forall k paths, In (k, paths) size_groups -> ~ In p paths) /\
            (forall w2, exists groups evs,
                find_duplicates_by_hash size_groups w2 = (Ok groups, emit w2 evs) /\
                ~ In (Open p) evs /\
                (forall d paths, In (d, paths) groups -> ~ In p paths)))) /\
  (forall size_dict w,
      exists groups,
        fst (find_duplicates_by_hash size_dict w) = Ok groups /\
        (forall d paths, In (d, paths) groups -> (2 <= length paths)%nat) /\
        (forall p d,
            digest_of (sys w) p = Some d ->
            (length (having (digest_of (sys w)) d (concat (values size_dict))) <= 1)%nat ->
            forall k paths, In (k, paths) groups -> ~ In p paths) /\
        (forall p f,
            NoDup (concat (values size_dict)) ->
            lookup (sys w) p = inr f ->
            (forall q g, In q (concat (values size_dict)) -> lookup (sys w) q = inr g ->
                         q <> p -> content g <> content f) ->
            (forall q g, In q (concat (values size_dict)) -> lookup (sys w) q = inr g ->
                         content g <> content f ->
                         one_pass (content g) <> one_pass (content f)) ->
            forall k paths, In (k, paths) groups -> ~ In p paths)).
Proof.
  split.
  - intros directory w. eexists. rewrite find_duplicates_by_size_run. cbn [fst].
    split; [reflexivity |]. split; [intros s paths; apply two_of_more_than_one |].
    intros p s Hsize Huniq.
    pose proof (unique_key_in_no_group _ _ _ Hsize Huniq) as Hnot.
    split; [exact Hnot |].
    assert (Hlisted : ~ In p (concat (values
              (more_than_one (group_by (size_of (sys w)) (walked (sys w) directory)))))).
    { intros Hin. apply In_concat_values in Hin. destruct Hin as [k [l [Hkl Hp]]].
      exact (Hnot k l Hkl Hp). }
    intros w2. eexists _, _. split; [apply find_duplicates_by_hash_run |]. split.
    + intros Hopen. apply Hlisted. exact (In_Open_hash_events _ _ _ Hopen).
    + intros d paths Hin Hp. members_of Hin.
      apply In_having in Hp. now destruct Hp as [Hp _].
  - intros size_dict w. eexists. rewrite find_duplicates_by_hash_run. cbn [fst].
    split; [reflexivity |]. split; [intros d paths; apply two_of_more_than_one |].
    rewrite (group_by_ext _ _ _ (digest_key_digest_of (sys w))).
    split.
    + intros p d Hd Huniq. exact (unique_key_in_no_group _ _ _ Hd Huniq).
    + intros p f Hnd Hf Huniq Hcoll k paths Hin Hp.
      assert (Hk : digest_of (sys w) p = Some k).
      { members_of Hin.
        now apply In_having in Hp. }
      pose proof (unique_content_unique_digest _ Hnd Hf Huniq Hcoll Hk) as Hone.
      exact (unique_key_in_no_group _ _ _ Hk Hone k paths Hin Hp).
Qed.

End Singletons.

(** ** Sizes and digests *)

Lemma two_members {A : Type} (l : list A) (x y : A) :
  In x l -> In y l -> x <> y -> (1 < length l)%nat.
Proof.
  destruct l as [|a [|b l]]; cbn; [tauto | | lia].
  intros [<- | []] [<- | []] Hne. contradiction.
Qed.

Section SizesAndDigests.

Context {HA : HashAlgorithm}.

(** C2, as the code has it: the digest dictionary is one for all size
    groups, so two different listed paths share an output group exactly
    when [hash_file] returns the same digest for both, under whatever sizes
    they are listed.  When the content of every listed file has the length
    the file is listed under, two paths of one group are listed under the
    same size or their contents are a collision of the digest. *)
Theorem sizes_mixed_only_by_equal_digests (size_dict : dict Z (list string)) (w : world)
        (groups : dict string (list string)) :
  fst (find_duplicates_by_hash size_dict w) = Ok groups ->
  (forall p q s1 s2,
      listed_under size_dict s1 p -> listed_under size_dict s2 q -> p <> q ->
      ((exists d paths, In (d, paths) groups /\ In p paths /\ In q paths) <->
       (exists d, digest_of (sys w) p = Some d /\ digest_of (sys w) q = Some d))) /\
  ((forall s p f,
       listed_under size_dict s p -> lookup (sys w) p = inr f ->
       Z.of_nat (length (content f)) = s) ->
   forall d paths p q s1 s2,
     In (d, paths) groups -> In p paths -> In q paths ->
     listed_under size_dict s1 p -> listed_under size_dict s2 q ->
     s1 = s2 \/
     exists fp fq,
       lookup (sys w) p = inr fp /\ lookup (sys w) q = inr fq /\
       content fp <> content fq /\ one_pass (content fp) = one_pass (content fq)).
Proof.
  intros Hrun. split.
  - intros p q s1 s2 [l1 [Hl1 Hp]] [l2 [Hl2 Hq]] Hne. split.
    + intros [d [paths [Hin [Hpp Hqq]]]]. exists d.
      destruct (group_member _ _ _ _ _ Hrun Hin Hpp) as [_ Hdp].
      destruct (group_member _ _ _ _ _ Hrun Hin Hqq) as [_ Hdq].
      now split.
    + intros [d [Hdp Hdq]].
      exists d, (having (digest_of (sys w)) d (concat (values size_dict))).
      assert (Hp' : In p (having (digest_of (sys w)) d (concat (values size_dict)))).
      { apply In_having. split; [| exact Hdp]. apply In_concat_values. now exists s1, l1. }
      assert (Hq' : In q (having (digest_of (sys w)) d (concat (values size_dict)))).
      { apply In_having. split; [| exact Hdq]. apply In_concat_values. now exists s2, l2. }
      split; [| now split].
      apply (hash_groups_spec _ _ Hrun). split; [reflexivity |].
      exact (two_members _ Hp' Hq' Hne).
  - intros Htrue d paths p q s1 s2 Hin Hp Hq Hs1 Hs2.
    destruct (same_group_same_digest _ _ Hrun _ _ _ _ Hin Hp Hq)
      as [fp [fq [Hfp [Hfq [Hdp [Hdq Hsame]]]]]].
    destruct Hsame as [Heq | [Hne Hcoll]].
    + left. rewrite <- (Htrue _ _ _ Hs1 Hfp), <- (Htrue _ _ _ Hs2 Hfq). now rewrite Heq.
    + right. now exists fp, fq.
Qed.

End SizesAndDigests.

(** ** The whole scan *)

Section WholeScan.

Context {HA : HashAlgorithm}.

Lemma full_scan_run (directory : string) (w : world) :
  full_scan directory w =
  (Ok (scan_groups (sys w) directory), emit w (scan_events (sys w) directory)).
Proof.
  unfold full_scan, bind. rewrite find_duplicates_by_size_run, find_duplicates_by_hash_run.
  now rewrite emit_emit, sys_emit.
Qed.

(** What the script prints after the scan. *)
Lemma main_run (directory : string) (w : world) :
  main directory w =
  (Ok tt,
   emit w
     match more_than_one (group_by (size_of (sys w)) (walked (sys w) directory)) with
     | [] =>
         flat_map (size_events (sys w)) (walked (sys w) directory)
           ++ [Printed "No duplicate files found based on size."]
     | _ :: _ =>
         scan_events (sys w) directory ++
         match scan_groups (sys w) directory with
         | [] => [Printed "No duplicate files found based on content."]
         | groups => flat_map group_lines groups
         end
     end).
Proof.
  unfold main, bind, scan_events, scan_groups, size_groups_of.
  rewrite find_duplicates_by_size_run.
  destruct (more_than_one _) as [|item size_groups].
  - unfold print. now rewrite emit_emit.
  - rewrite find_duplicates_by_hash_run, sys_emit.
    destruct (more_than_one _) as [|group groups].
    + unfold print. now rewrite !emit_emit, app_assoc.
    + now rewrite display_duplicates_run, !emit_emit, app_assoc.
Qed.

(** C6, as the code has it: for a root that cannot be listed, [os.walk]
    yields nothing and [find_duplicates_by_size] returns the empty
    dictionary without a diagnostic, as it does for an empty directory;
    the script then prints that there are no duplicates by size, as it
    does for an empty directory. *)
Theorem unlistable_root_looks_empty (directory : string) (w : world) (e : string) :
  scandir (sys w) directory = ScandirError e ->
  find_duplicates_by_size directory w = (Ok [], w) /\
  main directory w =
    (Ok tt, emit w [Printed "No duplicate files found based on size."]) /\
  (forall directory' w',
      scandir (sys w') directory' = Listing NoMore ->
      find_duplicates_by_size directory' w' = (Ok [], w') /\
      main directory' w' =
        (Ok tt, emit w' [Printed "No duplicate files found based on size."])).
Proof.
  intros Hroot.
  assert (Hnothing : forall directory' w',
             walked (sys w') directory' = [] ->
             find_duplicates_by_size directory' w' = (Ok [], w') /\
             main directory' w' =
               (Ok tt, emit w' [Printed "No duplicate files found based on size."])).
  { intros directory' w' Hwalked.
    assert (Hsize : find_duplicates_by_size directory' w' = (Ok [], w')).
    { rewrite find_duplicates_by_size_run, Hwalked. cbn. now rewrite emit_nil. }
    split; [exact Hsize |]. unfold main, bind. now rewrite Hsize. }
  destruct (Hnothing directory w) as [Hsize Hmain].
  { unfold walked. now rewrite Hroot. }
  split; [exact Hsize |]. split; [exact Hmain |].
  intros directory' w' Hempty. apply Hnothing. unfold walked. now rewrite Hempty.
Qed.

(** C8: a directory with two files of size 0, both read as empty, gives
    one size group and one group of the digest of the empty content with
    both paths, which the script prints; the digest of a file that was
    hashed is never taken for a failure. *)
Theorem two_empty_files_grouped (directory a b : string) (w : world) (fa fb : file) :
  scandir (sys w) directory = Listing (NonDir a (NonDir b NoMore)) ->
  st_size (sys w) (os_path_join directory a) = inr 0 ->
  st_size (sys w) (os_path_join directory b) = inr 0 ->
  lookup (sys w) (os_path_join directory a) = inr fa ->
  lookup (sys w) (os_path_join directory b) = inr fb ->
  content fa = [] -> fault fa = None ->
  content fb = [] -> fault fb = None ->
  fst (find_duplicates_by_size directory w) =
    Ok [(0, [os_path_join directory a; os_path_join directory b])] /\
  fst (full_scan directory w) =
    Ok [(one_pass [], [os_path_join directory a; os_path_join directory b])] /\
  main directory w =
    (Ok tt,
     emit w [Open (os_path_join directory a); Open (os_path_join directory b);
             Printed (newline +++ "Duplicate files with hash " +++ one_pass [] +++ ":");
             Printed ("  " +++ os_path_join directory a);
             Printed ("  " +++ os_path_join directory b)]) /\
  (forall data, truthy (Some (one_pass data)) = true).
Proof.
  intros Hdir Hsa Hsb Hfa Hfb Hca Hna Hcb Hnb.
  assert (Hwalked : walked (sys w) directory =
                    [os_path_join directory a; os_path_join directory b]).
  { unfold walked. now rewrite Hdir. }
  assert (Hsizes : size_groups_of (sys w) directory =
                   [(0, [os_path_join directory a; os_path_join directory b])]).
  { unfold size_groups_of. rewrite Hwalked. unfold group_by. cbn [fold_left].
    unfold add_item, size_of. rewrite Hsa. cbn [dict_append]. rewrite Hsb. reflexivity. }
  assert (Hhashing : forall p f, lookup (sys w) p = inr f -> content f = [] ->
                                fault f = None ->
                                hashing (sys w) p default_block_size = inr new).
  { intros p f Hf Hc Hn. unfold hashing.
    rewrite Hf, (stream_spec (block_size := default_block_size) eq_refl _ new eq_refl).
    cbn [reads_left unread]. now rewrite Hn, Hc, update_nil. }
  assert (Hgroups : scan_groups (sys w) directory =
                    [(one_pass [], [os_path_join directory a; os_path_join directory b])]).
  { unfold scan_groups. rewrite Hsizes.
    cbn [values map snd concat app]. unfold group_by. cbn [fold_left]. unfold add_item.
    rewrite !digest_key_digest_of. unfold digest_of.
    rewrite (Hhashing _ _ Hfa Hca Hna), (Hhashing _ _ Hfb Hcb Hnb). cbn [dict_append].
    unfold one_pass. rewrite update_nil.
    change (key_eqb (hexdigest new) (hexdigest new))
      with (String.eqb (hexdigest new) (hexdigest new)).
    rewrite String.eqb_refl. reflexivity. }
  assert (Hevents : scan_events (sys w) directory =
                    [Open (os_path_join directory a); Open (os_path_join directory b)]).
  { unfold scan_events. rewrite Hsizes, Hwalked.
    cbn [values map snd concat app flat_map]. unfold size_events, hash_events.
    rewrite Hsa, Hsb, (Hhashing _ _ Hfa Hca Hna), (Hhashing _ _ Hfb Hcb Hnb).
    reflexivity. }
  split; [| split; [| split]].
  - rewrite find_duplicates_by_size_run. cbn [fst].
    fold (size_groups_of (sys w) directory). now rewrite Hsizes.
  - rewrite full_scan_run. cbn [fst]. now rewrite Hgroups.
  - rewrite main_run. fold (size_groups_of (sys w) directory).
    rewrite Hsizes, Hgroups, Hevents. reflexivity.
  - intros data. apply truthy_hexdigest.
Qed.

(** *** Two scans of one tree *)

Lemma scan_groups_spec (s : os) (directory d : string) (paths : list string) :
  In (d, paths) (scan_groups s directory) <->
  paths = having (digest_of s) d (concat (values (size_groups_of s directory)))
  /\ (1 < length paths)%nat.
Proof.
  unfold scan_groups. rewrite (group_by_ext _ _ _ (digest_key_digest_of s)).
  apply more_than_one_group_by.
Qed.


Lemma Permutation_filtered {A : Type} (f : A -> bool) (l l' : list A) :
  Permutation l l' -> Permutation (filter f l) (filter f l').
Proof.
  intros Hperm. induction Hperm as [| x l l' _ IH | x y l | l l' l'' _ IH _ IH'];
    cbn [filter].
  - constructor.
  - destruct (f x); [now constructor | exact IH].
  - destruct (f x), (f y); try apply Permutation_refl. apply perm_swap.
  - now apply perm_trans with (l' := filter f l').
Qed.

Lemma filter_both {A : Type} (f g : A -> bool) (l : list A) :
  filter f (filter g l) = filter (fun x => g x && f x)%bool l.
Proof.
  induction l as [|x l IH]; cbn [filter]; [reflexivity |].
  destruct (g x); cbn [filter andb]; [destruct (f x) |]; now rewrite IH.
Qed.

Lemma group_by_ext_in {K A : Type} {EK : EqKey K} (key key' : A -> option K)
      (l : list A) :
  (forall x, In x l -> key x = key' x) -> group_by key l = group_by key' l.
Proof.
  unfold group_by. generalize (@nil (K * list A)).
  induction l as [|x l IH]; intros d Hext; cbn [fold_left]; [reflexivity |].
  rewrite IH by (intros y Hy; apply Hext; now right).
  unfold add_item at 2 4. now rewrite (Hext x (or_introl eq_refl)).
Qed.

Section Kept.

Context {K A : Type} {EK : EqKey K}.

Variable key : A -> option K.

Variable keep : K -> bool.

(** The members of the groups whose key is kept, in the order of the
    dictionary. *)
Local Abbreviation kept d :=
  (concat (values (filter (fun item : K * list A => keep (fst item)) d))).

Lemma kept_append_false (d : dict K (list A)) (k : K) (v : A) :
  keep k = false -> kept (dict_append d k v) = kept d.
Proof.
  intros Hk. induction d as [|[k' vs] d IH]; cbn [dict_append filter fst].
  - now rewrite Hk.
  - destruct (key_eqb k' k) eqn:E; cbn [filter fst].
    + apply key_eqb_eq in E. subst k'. now rewrite Hk.
    + destruct (keep k'); [| exact IH]. unfold values in *. cbn [map concat snd].
      now rewrite IH.
Qed.

Lemma kept_append_true (d : dict K (list A)) (k : K) (v : A) :
  keep k = true -> Permutation (kept (dict_append d k v)) (kept d ++ [v]).
Proof.
  intros Hk. unfold values.
  induction d as [|[k' vs] d IH]; cbn [dict_append filter fst].
  - rewrite Hk. apply Permutation_refl.
  - destruct (key_eqb k' k) eqn:E; cbn [filter fst].
    + apply key_eqb_eq in E. subst k'. rewrite Hk. cbn [map concat snd].
      rewrite <- !app_assoc. apply Permutation_app_head, Permutation_app_comm.
    + destruct (keep k'); [| exact IH]. cbn [map concat snd].
      rewrite <- app_assoc. now apply Permutation_app_head.
Qed.

Lemma kept_fold (l : list A) :
  forall d,
    Permutation
      (kept (fold_left (add_item key) l d))
      (kept d ++ filter (fun x => match key x with
                                  | Some k => keep k
                                  | None => false
                                  end) l).
Proof.
  induction l as [|x l IH]; intros d; cbn [fold_left filter].
  - rewrite app_nil_r. apply Permutation_refl.
  - eapply perm_trans; [apply IH |]. unfold add_item.
    destruct (key x) as [k|]; [| apply Permutation_refl].
    destruct (keep k) eqn:Hk.
    + eapply perm_trans;
        [apply Permutation_app_tail, (kept_append_true d x Hk) |].
      rewrite <- app_assoc. apply Permutation_refl.
    + rewrite (kept_append_false d x Hk). apply Permutation_refl.
Qed.

End Kept.

(** The members of the returned groups are, up to their order, the items
    whose key at least two items have. *)
Lemma more_than_one_members {K A : Type} {EK : EqKey K} (key : A -> option K)
      (l : list A) :
  Permutation
    (concat (values (more_than_one (group_by key l))))
    (filter (fun x => match key x with
                      | Some k => (1 <? length (having key k l))%nat
                      | None => false
                      end) l).
Proof.
  destruct (grouped_group_by key l) as [Hnd Hget].
  assert (Hsame : more_than_one (group_by key l) =
                  filter (fun item => (1 <? length (having key (fst item) l))%nat)
                         (group_by key l)).
  { unfold more_than_one. apply filter_ext_in. intros [k vs] Hin. cbn [fst snd].
    apply (In_dict_get _ _ _ Hnd) in Hin. rewrite Hget in Hin.
    destruct (having key k l) eqn:E; [discriminate |]. now injection Hin as <-. }
  rewrite Hsame.
  exact (kept_fold key (fun k => (1 <? length (having key k l))%nat) l []).
Qed.

(** The candidates of the hash pass, up to their order. *)
Lemma candidates_of_size_groups (s : os) (directory : string) :
  Permutation (concat (values (size_groups_of s directory)))
              (filter (candidate s (walked s directory)) (walked s directory)).
Proof. apply more_than_one_members. Qed.

Lemma scan_group_members (s : os) (directory d : string) :
  Permutation
    (having (digest_of s) d (concat (values (size_groups_of s directory))))
    (duplicates_of s (walked s directory) d).
Proof.
  unfold duplicates_of. rewrite <- filter_both.
  apply Permutation_filtered, candidates_of_size_groups.
Qed.

(** Two listings of one tree have the same candidates and the same
    duplicates, up to their order. *)
Lemma duplicates_of_permuted (s1 s2 : os) (l1 l2 : list string) (d : string) :
  Permutation l1 l2 ->
  (forall p, In p l1 -> st_size s1 p = st_size s2 p /\ lookup s1 p = lookup s2 p) ->
  Permutation (duplicates_of s1 l1 d) (duplicates_of s2 l2 d).
Proof.
  intros Hperm Hsame.
  assert (Hsize : forall p, In p l1 -> size_of s1 p = size_of s2 p).
  { intros p Hp. unfold size_of. now rewrite (proj1 (Hsame p Hp)). }
  assert (Hdigest : forall p, In p l1 -> digest_of s1 p = digest_of s2 p).
  { intros p Hp. unfold digest_of, hashing. now rewrite (proj2 (Hsame p Hp)). }
  assert (Hcount : forall n,
             length (having (size_of s1) n l1) = length (having (size_of s2) n l2)).
  { intros n. apply Permutation_length.
    apply perm_trans with (l' := having (size_of s2) n l1).
    - unfold having. rewrite (filter_ext_in (has_key (size_of s1) n)
                                            (has_key (size_of s2) n)).
      + apply Permutation_refl.
      + intros p Hp. unfold has_key. now rewrite (Hsize p Hp).
    - now apply Permutation_filtered. }
  unfold duplicates_of.
  apply perm_trans
    with (l' := filter (fun p => candidate s2 l2 p && has_key (digest_of s2) d p)%bool l1).
  - rewrite (filter_ext_in
               (fun p => candidate s1 l1 p && has_key (digest_of s1) d p)%bool
               (fun p => candidate s2 l2 p && has_key (digest_of s2) d p)%bool).
    + apply Permutation_refl.
    + intros p Hp. unfold candidate, has_key.
      rewrite (Hsize p Hp), (Hdigest p Hp).
      destruct (size_of s2 p) as [n|]; [| reflexivity]. now rewrite Hcount.
  - now apply Permutation_filtered.
Qed.

Lemma scan_groups_same_listing (s1 s2 : os) (directory : string) :
  walked s1 directory = walked s2 directory ->
  (forall p, In p (walked s1 directory) ->
             st_size s1 p = st_size s2 p /\ lookup s1 p = lookup s2 p) ->
  scan_groups s1 directory = scan_groups s2 directory.
Proof.
  intros Hwalked Hsame.
  assert (Hsizes : size_groups_of s1 directory = size_groups_of s2 directory).
  { unfold size_groups_of. rewrite <- Hwalked. f_equal. apply group_by_ext_in.
    intros p Hp. unfold size_of. now rewrite (proj1 (Hsame p Hp)). }
  unfold scan_groups. rewrite <- Hsizes. f_equal. apply group_by_ext_in.
  intros p Hp. rewrite !digest_key_digest_of. unfold digest_of, hashing.
  assert (Hvisited : In p (walked s1 directory)).
  { apply In_concat_values in Hp. destruct Hp as [n [l [Hin Hp]]].
    apply more_than_one_group_by in Hin. destruct Hin as [-> _].
    now apply In_having in Hp. }
  now rewrite (proj2 (Hsame p Hvisited)).
Qed.

(** C9: two scans of an unmodified tree give the same grouping.  When
    both scans return, for a tree whose visited files have the same sizes
    and the same contents in both and are listed in the same or in another
    order: a group of the first scan holds, in some order, the candidates of
    its digest, and every digest of two candidates or more has a group; the
    second scan has groups under the same digests, with the same members;
    [hash_file] returns the same digest for every visited path; and when
    the listing order is the same, the two results are equal, order
    included. *)
Theorem scan_twice_same_groups (directory : string) (w1 w2 : world)
        (groups1 groups2 : dict string (list string)) :
  fst (full_scan directory w1) = Ok groups1 ->
  fst (full_scan directory w2) = Ok groups2 ->
  Permutation (walked (sys w1) directory) (walked (sys w2) directory) ->
  (forall p, In p (walked (sys w1) directory) ->
             st_size (sys w1) p = st_size (sys w2) p /\
             lookup (sys w1) p = lookup (sys w2) p) ->
  (forall d paths,
      In (d, paths) groups1 ->
      Permutation paths (duplicates_of (sys w1) (walked (sys w1) directory) d)) /\
  (forall d,
      (exists paths, In (d, paths) groups1) <->
      (2 <= length (duplicates_of (sys w1) (walked (sys w1) directory) d))%nat) /\
  (forall d,
      (exists paths, In (d, paths) groups1) <-> (exists paths, In (d, paths) groups2)) /\
  (forall d paths1 paths2,
      In (d, paths1) groups1 -> In (d, paths2) groups2 -> Permutation paths1 paths2) /\
  (forall p,
      In p (walked (sys w1) directory) ->
      fst (hash_file p default_block_size w1) = fst (hash_file p default_block_size w2)) /\
  (walked (sys w1) directory = walked (sys w2) directory -> groups1 = groups2).
Proof.
  rewrite !full_scan_run. cbn [fst]. intros [= <-] [= <-] Hperm Hsame.
  assert (Hmembers : forall s d paths,
             In (d, paths) (scan_groups s directory) ->
             Permutation paths (duplicates_of s (walked s directory) d)).
  { intros s d paths Hin. apply scan_groups_spec in Hin. destruct Hin as [-> _].
    apply scan_group_members. }
  assert (Hkeys : forall s d,
             (exists paths, In (d, paths) (scan_groups s directory)) <->
             (2 <= length (duplicates_of s (walked s directory) d))%nat).
  { intros s d. rewrite <- (Permutation_length (scan_group_members s directory d)).
    split.
    - intros [paths Hin]. apply scan_groups_spec in Hin. destruct Hin as [-> Hlen]. lia.
    - intros Hlen. eexists. apply scan_groups_spec. split; [reflexivity | lia]. }
  pose proof (fun d => duplicates_of_permuted (sys w1) (sys w2) d Hperm Hsame) as Htwo.
  split; [apply Hmembers |]. split; [apply Hkeys |]. split; [| split; [| split]].
  - intros d. rewrite !Hkeys. now rewrite (Permutation_length (Htwo d)).
  - intros d paths1 paths2 Hin1 Hin2.
    apply perm_trans with (l' := duplicates_of (sys w1) (walked (sys w1) directory) d);
      [now apply Hmembers |].
    apply perm_trans with (l' := duplicates_of (sys w2) (walked (sys w2) directory) d);
      [apply Htwo |].
    apply Permutation_sym. now apply Hmembers.
  - intros p Hp. rewrite !hash_file_default_run. cbn [fst].
    unfold digest_of, hashing. now rewrite (proj2 (Hsame p Hp)).
  - intros Hwalked. now apply scan_groups_same_listing.
Qed.

End WholeScan.

(** ** What the code does not do *)

(** A missing root and an empty directory give the same result and the
    same (empty) output. *)
Lemma root_failure_not_reported : ~ root_failure_reported.
Proof.
  intros Hclaim.
  apply (Hclaim (sys empty_directory) "missing" (no_such_file "missing") eq_refl
                (sys empty_directory) "d" eq_refl).
  reflexivity.
Qed.

(** Two attribute files of reported size 4096 and two regular files of
    size 4, all four holding the same four bytes: the size pass makes two
    size groups, the hash pass one group of the four paths. *)
Lemma sizes_mixed_in_one_group :
  fst (find_duplicates_by_size "t" attributes_and_copies) =
    Ok [(4096, ["t/mtu_a"; "t/mtu_b"]); (4, ["t/copy_a"; "t/copy_b"])] /\
  ~ sizes_never_mixed
      [(4096, ["t/mtu_a"; "t/mtu_b"]); (4, ["t/copy_a"; "t/copy_b"])]
      attributes_and_copies.
Proof.
  split; [vm_compute; reflexivity |].
  intros Hclaim.
  assert (Hrun : fst (find_duplicates_by_hash
                        [(4096, ["t/mtu_a"; "t/mtu_b"]); (4, ["t/copy_a"; "t/copy_b"])]
                        attributes_and_copies) =
                 Ok [("cfa5301358b9fcbe7aa45b1ceea088c6",
                      ["t/mtu_a"; "t/mtu_b"; "t/copy_a"; "t/copy_b"])])
    by (vm_compute; reflexivity).
  assert (H : 4096 = 4).
  { apply (Hclaim _ Hrun "cfa5301358b9fcbe7aa45b1ceea088c6"
                  ["t/mtu_a"; "t/mtu_b"; "t/copy_a"; "t/copy_b"] "t/mtu_a" "t/copy_a").
    - now left.
    - now left.
    - right. right. now left.
    - exists ["t/mtu_a"; "t/mtu_b"]. split; now left.
    - exists ["t/copy_a"; "t/copy_b"]. split; [right |]; now left. }
  discriminate H.
Qed.

(** The two files with a unique content each, of the same size and the
    same MD5 digest, are reported as duplicates of each other. *)
Lemma unique_contents_grouped_by_collision :
  collision_x <> collision_y /\
  fst (full_scan "d" colliding_pair) =
    Ok [("79054025255fb1a26e4bc422aef54eb4", ["d/x.bin"; "d/y.bin"])] /\
  ~ unique_content_in_no_group "d" colliding_pair.
Proof.
  split; [discriminate |]. split; [vm_compute; reflexivity |].
  intros Hclaim.
  apply (Hclaim [("79054025255fb1a26e4bc422aef54eb4", ["d/x.bin"; "d/y.bin"])]
                ltac:(vm_compute; reflexivity)
                "d/x.bin" (File collision_x None))
    with (d := "79054025255fb1a26e4bc422aef54eb4") (paths := ["d/x.bin"; "d/y.bin"]).
  - left. reflexivity.
  - reflexivity.
  - intros q g [<- | [<- | []]] Hg Hsame; [reflexivity |].
    vm_compute in Hg. injection Hg as <-. discriminate Hsame.
  - left. reflexivity.
  - left. reflexivity.
Qed.

(** ** The theorems at concrete directories *)

Lemma digest_groups_sound_witness :
  exists fp fq,
    lookup (sys hello_hello_world) "d/a.txt" = inr fp /\
    lookup (sys hello_hello_world) "d/b.txt" = inr fq /\
    one_pass (content fp) = "5d41402abc4b2a76b9719d911017c592" /\
    one_pass (content fq) = "5d41402abc4b2a76b9719d911017c592" /\
    (content fp = content fq \/
     (content fp <> content fq /\ one_pass (content fp) = one_pass (content fq))).
Proof.
  apply (@digest_groups_sound md5
           [(5, ["d/a.txt"; "d/b.txt"; "d/c.txt"])] hello_hello_world
           [("5d41402abc4b2a76b9719d911017c592", ["d/a.txt"; "d/b.txt"])])
    with (paths := ["d/a.txt"; "d/b.txt"]).
  - vm_compute. reflexivity.
  - left. reflexivity.
  - left. reflexivity.
  - right. left. reflexivity.
Defined.

Lemma hash_groups_from_input_witness :
  (forall p, In p ["d/a.txt"; "d/c.txt"] ->
             exists s file_list,
               In (s, file_list) [(5, ["d/a.txt"; "d/b.txt"; "d/c.txt"])] /\
               In p file_list) /\
  ["d/a.txt"; "d/c.txt"] =
    filter (has_key (digest_of (sys deleted_before_hashing))
                    "5d41402abc4b2a76b9719d911017c592")
           (concat (values [(5, ["d/a.txt"; "d/b.txt"; "d/c.txt"])])) /\
  subsequence ["d/a.txt"; "d/c.txt"]
              (concat (values [(5, ["d/a.txt"; "d/b.txt"; "d/c.txt"])])).
Proof.
  apply (@hash_groups_from_input md5
           [(5, ["d/a.txt"; "d/b.txt"; "d/c.txt"])] deleted_before_hashing
           [("5d41402abc4b2a76b9719d911017c592", ["d/a.txt"; "d/c.txt"])]).
  - vm_compute. reflexivity.
  - left. reflexivity.
Defined.

Lemma hash_file_streams_witness :
  fst (hash_file "d/a.txt" 2 hello_hello_world) =
    Ok (Some (one_pass (bytes_of "hello"))).
Proof.
  apply (@hash_file_streams md5 hello_hello_world "d/a.txt"
           (File (bytes_of "hello") None) 2).
  - reflexivity.
  - intros k e Hfault. discriminate Hfault.
  - reflexivity.
Defined.

Lemma stat_failure_skips_file_witness :
  exists size_groups evs,
    find_duplicates_by_size "d" stat_denied = (Ok size_groups, emit stat_denied evs) /\
    (In "d/b.txt" (walked (sys stat_denied) "d") ->
     In (Printed ("Error accessing " +++ "d/b.txt" +++ ": "
                  +++ "[Errno 13] Permission denied: 'd/b.txt'")) evs) /\
    (forall s paths, In (s, paths) size_groups -> ~ In "d/b.txt" paths) /\
    size_groups =
      more_than_one (group_by (size_of (sys stat_denied))
                              (without "d/b.txt" (walked (sys stat_denied) "d"))).
Proof.
  apply (@stat_failure_skips_file "d" stat_denied "d/b.txt"
           "[Errno 13] Permission denied: 'd/b.txt'").
  reflexivity.
Defined.

Lemma hash_failure_excludes_file_witness :
  hash_file "d/b.txt" default_block_size deleted_before_hashing =
    (Ok None,
     emit deleted_before_hashing
          [Open "d/b.txt";
           Printed ("Error reading " +++ "d/b.txt" +++ ": " +++ no_such_file "d/b.txt")]) /\
  exists groups evs,
    find_duplicates_by_hash [(5, ["d/a.txt"; "d/b.txt"; "d/c.txt"])]
                            deleted_before_hashing =
      (Ok groups, emit deleted_before_hashing evs) /\
    (In "d/b.txt" (concat (values [(5, ["d/a.txt"; "d/b.txt"; "d/c.txt"])])) ->
     In (Printed ("Error reading " +++ "d/b.txt" +++ ": " +++ no_such_file "d/b.txt")) evs) /\
    (forall d paths, In (d, paths) groups -> ~ In "d/b.txt" paths) /\
    groups =
      more_than_one
        (group_by (digest_of (sys deleted_before_hashing))
                  (without "d/b.txt"
                     (concat (values [(5, ["d/a.txt"; "d/b.txt"; "d/c.txt"])])))).
Proof.
  apply (@hash_failure_excludes_file md5
           [(5, ["d/a.txt"; "d/b.txt"; "d/c.txt"])] deleted_before_hashing
           "d/b.txt" (no_such_file "d/b.txt")).
  left. reflexivity.
Defined.

Lemma sizes_mixed_only_by_equal_digests_witness :
  5 = 5 \/
  exists fp fq,
    lookup (sys hello_hello_world) "d/a.txt" = inr fp /\
    lookup (sys hello_hello_world) "d/b.txt" = inr fq /\
    content fp <> content fq /\ one_pass (content fp) = one_pass (content fq).
Proof.
  refine (proj2 (@sizes_mixed_only_by_equal_digests md5
                   [(5, ["d/a.txt"; "d/b.txt"; "d/c.txt"])] hello_hello_world
                   [("5d41402abc4b2a76b9719d911017c592", ["d/a.txt"; "d/b.txt"])] _)
                _ "5d41402abc4b2a76b9719d911017c592" ["d/a.txt"; "d/b.txt"]
                "d/a.txt" "d/b.txt" 5 5 _ _ _ _ _).
  - vm_compute. reflexivity.
  - intros s p f [file_list [[[= <- <-] | []] Hp]] Hf.
    destruct Hp as [<- | [<- | [<- | []]]]; vm_compute in Hf;
      injection Hf as <-; reflexivity.
  - left. reflexivity.
  - left. reflexivity.
  - right. left. reflexivity.
  - exists ["d/a.txt"; "d/b.txt"; "d/c.txt"]. split; left; reflexivity.
  - exists ["d/a.txt"; "d/b.txt"; "d/c.txt"]. split; [left | right; left]; reflexivity.
Defined.

Lemma unlistable_root_looks_empty_witness :
  find_duplicates_by_size "missing" empty_directory = (Ok [], empty_directory) /\
  main "missing" empty_directory =
    (Ok tt, emit empty_directory [Printed "No duplicate files found based on size."]) /\
  (forall directory' w',
      scandir (sys w') directory' = Listing NoMore ->
      find_duplicates_by_size directory' w' = (Ok [], w') /\
      main directory' w' =
        (Ok tt, emit w' [Printed "No duplicate files found based on size."])).
Proof.
  apply (@unlistable_root_looks_empty md5 "missing" empty_directory
           (no_such_file "missing")).
  reflexivity.
Defined.

Lemma two_empty_files_grouped_witness :
  fst (find_duplicates_by_size "d" two_empty_files) = Ok [(0, ["d/a"; "d/b"])] /\
  fst (full_scan "d" two_empty_files) =
    Ok [("d41d8cd98f00b204e9800998ecf8427e", ["d/a"; "d/b"])] /\
  main "d" two_empty_files =
    (Ok tt,
     emit two_empty_files
          [Open "d/a"; Open "d/b";
           Printed (newline +++ "Duplicate files with hash "
                            +++ "d41d8cd98f00b204e9800998ecf8427e" +++ ":");
           Printed ("  " +++ "d/a"); Printed ("  " +++ "d/b")]) /\
  (forall data, truthy (Some (one_pass data)) = true).
Proof.
  apply (@two_empty_files_grouped md5 "d" "a" "b" two_empty_files
           (File [] None) (File [] None)); reflexivity.
Defined.

Lemma scan_twice_same_groups_witness :
  (forall d paths,
      In (d, paths) [("5d41402abc4b2a76b9719d911017c592", ["d/a.txt"; "d/b.txt"])] ->
      Permutation paths
        (duplicates_of (sys hello_hello_world) (walked (sys hello_hello_world) "d") d)) /\
  (forall d,
      (exists paths,
          In (d, paths) [("5d41402abc4b2a76b9719d911017c592", ["d/a.txt"; "d/b.txt"])]) <->
      (2 <= length (duplicates_of (sys hello_hello_world)
                      (walked (sys hello_hello_world) "d") d))%nat) /\
  (forall d,
      (exists paths,
          In (d, paths) [("5d41402abc4b2a76b9719d911017c592", ["d/a.txt"; "d/b.txt"])]) <->
      (exists paths,
          In (d, paths) [("5d41402abc4b2a76b9719d911017c592", ["d/b.txt"; "d/a.txt"])])) /\
  (forall d paths1 paths2,
      In (d, paths1) [("5d41402abc4b2a76b9719d911017c592", ["d/a.txt"; "d/b.txt"])] ->
      In (d, paths2) [("5d41402abc4b2a76b9719d911017c592", ["d/b.txt"; "d/a.txt"])] ->
      Permutation paths1 paths2) /\
  (forall p,
      In p (walked (sys hello_hello_world) "d") ->
      fst (hash_file p default_block_size hello_hello_world) =
      fst (hash_file p default_block_size world_hello_hello)) /\
  (walked (sys hello_hello_world) "d" = walked (sys world_hello_hello) "d" ->
   [("5d41402abc4b2a76b9719d911017c592", ["d/a.txt"; "d/b.txt"])] =
   [("5d41402abc4b2a76b9719d911017c592", ["d/b.txt"; "d/a.txt"])]).
Proof.
  apply (@scan_twice_same_groups md5 "d" hello_hello_world world_hello_hello).
  - vm_compute. reflexivity.
  - vm_compute. reflexivity.
  - exact (Permutation_rev ["d/a.txt"; "d/b.txt"; "d/c.txt"]).
  - intros p Hp. vm_compute in Hp.
    destruct Hp as [<- | [<- | [<- | []]]]; split; reflexivity.
Defined.

Lemma singleton_groups_removed_witness :
  exists size_groups,
    fst (find_duplicates_by_size "d" one_of_a_kind) = Ok size_groups /\
    (forall k paths, In (k, paths) size_groups -> ~ In "d/c.txt" paths) /\
    (forall w2, exists groups evs,
        find_duplicates_by_hash size_groups w2 = (Ok groups, emit w2 evs) /\
        ~ In (Open "d/c.txt") evs /\
        (forall d paths, In (d, paths) groups -> ~ In "d/c.txt" paths)).
Proof.
  destruct (proj1 (@singleton_groups_removed md5) "d" one_of_a_kind)
    as [size_groups [Hrun [_ Hunique]]].
  exists size_groups. split; [exact Hrun |].
  apply (Hunique "d/c.txt" 2).
  - reflexivity.
  - vm_compute. lia.
Defined.

(** ** The scenarios of the specification, with MD5 *)

Example scenario_hello_hello_world :
  outcome (full_scan "d" hello_hello_world) =
  (Ok [("5d41402abc4b2a76b9719d911017c592", ["d/a.txt"; "d/b.txt"])],
   [Open "d/a.txt"; Open "d/b.txt"; Open "d/c.txt"]).
Proof. vm_compute. reflexivity. Qed.

Example scenario_different_sizes :
  outcome (main "d" ten_and_twenty) =
  (Ok tt, [Printed "No duplicate files found based on size."]).
Proof. vm_compute. reflexivity. Qed.

Example scenario_deleted_before_hashing :
  outcome (full_scan "d" deleted_before_hashing) =
  (Ok [("5d41402abc4b2a76b9719d911017c592", ["d/a.txt"; "d/c.txt"])],
   [Open "d/a.txt"; Open "d/b.txt";
    Printed "Error reading d/b.txt: [Errno 2] No such file or directory: 'd/b.txt'";
    Open "d/c.txt"]).
Proof. vm_compute. reflexivity. Qed.

Example scenario_stat_denied :
  outcome (find_duplicates_by_size "d" stat_denied) =
  (Ok [(5, ["d/a.txt"; "d/c.txt"; "d/e.txt"])],
   [Printed "Error accessing d/b.txt: [Errno 13] Permission denied: 'd/b.txt'"]).
Proof. vm_compute. reflexivity. Qed.

Example scenario_block_sizes :
  map (fun block_size => fst (hash_file "d/a.txt" block_size hello_hello_world))
      [1; 2; 5; 7; default_block_size] =
  repeat (Ok (Some "5d41402abc4b2a76b9719d911017c592")) 5.
Proof. vm_compute. reflexivity. Qed.

Example scenario_read_error_midway :
  fails_to_hash (sys read_error_midway) "d/b.txt" "[Errno 5] Input/output error" /\
  outcome (full_scan "d" read_error_midway) =
  (Ok [("5d41402abc4b2a76b9719d911017c592", ["d/a.txt"; "d/c.txt"])],
   [Open "d/a.txt"; Open "d/b.txt";
    Printed "Error reading d/b.txt: [Errno 5] Input/output error";
    Open "d/c.txt"]).
Proof.
  split; [| vm_compute; reflexivity].
  right. exists (File (bytes_of "hello") (Some (1%nat, "[Errno 5] Input/output error"))), 1%nat.
  repeat split.
Qed.

(** ** More on the two passes *)

Lemma NoDup_grouped_values {K : Type} {EK : EqKey K} (key : string -> option K)
      (l : list string) (d : dict K (list string)) :
  NoDup l ->
  NoDup (keys d) ->
  (forall k vs, In (k, vs) d -> vs = having key k l) ->
  NoDup (concat (values d)).
Proof.
  intros Hl. induction d as [|[k vs] d IH]; intros Hkeys Hgroups; cbn; [constructor |].
  inversion Hkeys as [|? ? Hnotin Hkeys']; subst.
  apply NoDup_app.
  - rewrite (Hgroups k vs (or_introl eq_refl)). now apply NoDup_filter.
  - apply IH; [exact Hkeys' |]. intros k' vs' Hin. apply Hgroups. now right.
  - intros x Hx Hx'. apply Hnotin.
    rewrite (Hgroups k vs (or_introl eq_refl)) in Hx. apply In_having in Hx.
    apply In_concat_values in Hx'. destruct Hx' as [k' [vs' [Hin Hx']]].
    rewrite (Hgroups k' vs' (or_intror Hin)) in Hx'. apply In_having in Hx'.
    assert (k' = k) by (destruct Hx, Hx'; congruence). subst k'.
    change k with (fst (k, vs')). now apply in_map.
Qed.

Lemma NoDup_values_more_than_one {K : Type} {EK : EqKey K} (key : string -> option K)
      (l : list string) :
  NoDup l -> NoDup (concat (values (more_than_one (group_by key l)))).
Proof.
  intros Hl. apply NoDup_grouped_values with (key := key) (l := l).
  - exact Hl.
  - apply NoDup_keys_more_than_one.
  - intros k vs Hin. now apply more_than_one_group_by in Hin.
Qed.

(** X1: the size groups are exact.  A group of [find_duplicates_by_size]
    under a size is the list of all visited paths for which
    [os.path.getsize] reported this size, in visiting order, and there are
    two or more of them; every member was visited and has this size. *)
Theorem size_groups_exact (directory : string) (w : world)
        (size_groups : dict Z (list string)) :
  fst (find_duplicates_by_size directory w) = Ok size_groups ->
  (forall s paths,
      In (s, paths) size_groups <->
      paths = filter (fun p => match st_size (sys w) p with
                               | inr n => n =? s
                               | inl _ => false
                               end) (walked (sys w) directory)
      /\ (2 <= length paths)%nat) /\
  (forall s paths p,
      In (s, paths) size_groups -> In p paths ->
      In p (walked (sys w) directory) /\ st_size (sys w) p = inr s).
Proof.
  intros Hrun.
  assert (Hfilter : forall s,
             having (size_of (sys w)) s (walked (sys w) directory) =
             filter (fun p => match st_size (sys w) p with
                              | inr n => n =? s
                              | inl _ => false
                              end) (walked (sys w) directory)).
  { intros s. unfold having. apply filter_ext. intros p. unfold has_key, size_of.
    destruct (st_size (sys w) p); reflexivity. }
  split.
  - intros s paths. rewrite (size_groups_spec _ _ Hrun), Hfilter. reflexivity.
  - intros s paths p Hin Hp. apply (size_groups_spec _ _ Hrun) in Hin.
    destruct Hin as [-> _]. apply In_having in Hp. destruct Hp as [Hp Hsize].
    split; [exact Hp |]. unfold size_of in Hsize.
    destruct (st_size (sys w) p); congruence.
Qed.

Section MoreOnPasses.

Context {HA : HashAlgorithm}.

Lemma digest_of_readable (s : os) (file_path : string) (f : file) :
  lookup s file_path = inr f -> fault f = None ->
  digest_of s file_path = Some (one_pass (content f)).
Proof.
  intros Hf Hfault. unfold digest_of, hashing. rewrite Hf.
  rewrite (stream_spec (block_size := default_block_size) eq_refl _ new eq_refl).
  cbn [reads_left unread]. now rewrite Hfault.
Qed.

(** X2: duplicates are reported.  Two different visited paths with the
    same reported size, whose files open and read without fault and hold
    the same bytes, are together in the group that the scan returns under
    the digest of these bytes. *)
Theorem duplicates_are_reported (directory : string) (w : world) (p q : string)
        (s : Z) (f g : file) :
  In p (walked (sys w) directory) -> In q (walked (sys w) directory) -> p <> q ->
  st_size (sys w) p = inr s -> st_size (sys w) q = inr s ->
  lookup (sys w) p = inr f -> lookup (sys w) q = inr g ->
  fault f = None -> fault g = None ->
  content f = content g ->
  exists groups paths,
    fst (full_scan directory w) = Ok groups /\
    In (one_pass (content f), paths) groups /\ In p paths /\ In q paths.
Proof.
  intros Hp Hq Hne Hsp Hsq Hf Hg Hnf Hng Hsame.
  assert (Hlisted : forall x, In x (walked (sys w) directory) ->
                              st_size (sys w) x = inr s ->
                              In x (concat (values (size_groups_of (sys w) directory)))).
  { intros x Hx Hsx. apply In_concat_values.
    exists s, (having (size_of (sys w)) s (walked (sys w) directory)).
    assert (Hmember : forall y, In y (walked (sys w) directory) ->
                                st_size (sys w) y = inr s ->
                                In y (having (size_of (sys w)) s (walked (sys w) directory))).
    { intros y Hy Hsy. apply In_having. split; [exact Hy |].
      unfold size_of. now rewrite Hsy. }
    split; [| now apply Hmember].
    apply more_than_one_group_by. split; [reflexivity |].
    exact (two_members _ (Hmember p Hp Hsp) (Hmember q Hq Hsq) Hne). }
  set (listed := concat (values (size_groups_of (sys w) directory))) in *.
  assert (Hdp : In p (having (digest_of (sys w)) (one_pass (content f)) listed)).
  { apply In_having. split; [now apply Hlisted | now apply digest_of_readable]. }
  assert (Hdq : In q (having (digest_of (sys w)) (one_pass (content f)) listed)).
  { apply In_having. split; [now apply Hlisted |].
    rewrite Hsame. now apply digest_of_readable. }
  exists (scan_groups (sys w) directory),
         (having (digest_of (sys w)) (one_pass (content f)) listed).
  rewrite full_scan_run. cbn [fst]. split; [reflexivity |]. split; [| now split].
  apply scan_groups_spec. split; [reflexivity |].
  exact (two_members _ Hdp Hdq Hne).
Qed.

(** X3: what is reported was a candidate.  A path of a group of the scan
    was visited by the walk, its size was obtained and is the size of at
    least two visited paths, its file opens, and the digest of the group is
    the digest of the whole content of the file. *)
Theorem reported_paths_were_candidates (directory : string) (w : world)
        (groups : dict string (list string)) (d : string) (paths : list string)
        (p : string) :
  fst (full_scan directory w) = Ok groups ->
  In (d, paths) groups -> In p paths ->
  In p (walked (sys w) directory) /\
  exists s f,
    st_size (sys w) p = inr s /\
    (2 <= length (having (size_of (sys w)) s (walked (sys w) directory)))%nat /\
    lookup (sys w) p = inr f /\ one_pass (content f) = d.
Proof.
  rewrite full_scan_run. cbn [fst]. intros [= <-] Hin Hp.
  apply scan_groups_spec in Hin. destruct Hin as [-> _].
  apply In_having in Hp. destruct Hp as [Hlisted Hd].
  apply In_concat_values in Hlisted. destruct Hlisted as [s [l [Hsl Hpl]]].
  apply more_than_one_group_by in Hsl. destruct Hsl as [-> Hlen].
  apply In_having in Hpl. destruct Hpl as [Hwalked Hsize].
  split; [exact Hwalked |].
  apply digest_of_Some in Hd. destruct Hd as [f [Hf Hd]].
  exists s, f. split; [| split; [lia | now split]].
  unfold size_of in Hsize. destruct (st_size (sys w) p); congruence.
Qed.

(** X5: no path is reported twice.  When the walk visits no path twice,
    no path occurs twice in the size groups, and none occurs twice in the
    groups of the scan, neither in one group nor in two. *)
Theorem no_path_reported_twice (directory : string) (w : world) :
  NoDup (walked (sys w) directory) ->
  exists size_groups groups,
    fst (find_duplicates_by_size directory w) = Ok size_groups /\
    fst (full_scan directory w) = Ok groups /\
    NoDup (concat (values size_groups)) /\
    NoDup (concat (values groups)).
Proof.
  intros Hnd. eexists _, _.
  rewrite find_duplicates_by_size_run, full_scan_run. cbn [fst].
  split; [reflexivity |]. split; [reflexivity |].
  assert (Hsizes : NoDup (concat (values (size_groups_of (sys w) directory))))
    by now apply NoDup_values_more_than_one.
  split; [exact Hsizes |].
  now apply NoDup_values_more_than_one.
Qed.

(** X7: the hash pass reads its input as one sequence of paths.  Two
    inputs whose lists, one after the other, give the same sequence make
    [find_duplicates_by_hash] return the same groups and emit the same
    events: the sizes they are keyed by and the way the paths are divided
    into lists have no effect. *)
Theorem hash_pass_reads_one_sequence (size_dict size_dict' : dict Z (list string))
        (w : world) :
  concat (values size_dict) = concat (values size_dict') ->
  find_duplicates_by_hash size_dict w = find_duplicates_by_hash size_dict' w.
Proof.
  intros Hsame. rewrite !find_duplicates_by_hash_run. now rewrite Hsame.
Qed.

End MoreOnPasses.

(** ** The order of the groups *)

Lemma subsequence_nil {A : Type} (l : list A) : subsequence [] l.
Proof. induction l; now constructor. Qed.

Lemma subsequence_refl {A : Type} (l : list A) : subsequence l l.
Proof. induction l; now constructor. Qed.

Lemma subsequence_app {A : Type} (a b l m : list A) :
  subsequence a l -> subsequence b m -> subsequence (a ++ b) (l ++ m).
Proof.
  intros Hal Hbm. induction Hal; cbn; [exact Hbm | now constructor | now constructor].
Qed.

Lemma subsequence_trans {A : Type} (a b c : list A) :
  subsequence a b -> subsequence b c -> subsequence a c.
Proof.
  intros Hab Hbc. revert a Hab.
  induction Hbc as [| x b c Hbc IH | x b c Hbc IH]; intros a Hab.
  - exact Hab.
  - constructor. now apply IH.
  - inversion Hab; subst.
    + apply subseq_skip. now apply IH.
    + apply subseq_keep. now apply IH.
Qed.

Section GroupOrder.

Context {K A : Type} {EK : EqKey K}.

Variable key : A -> option K.

Lemma dict_append_nonempty (d : dict K (list A)) (k : K) (v : A) :
  (forall item, In item d -> snd item <> []) ->
  forall item, In item (dict_append d k v) -> snd item <> [].
Proof.
  induction d as [|[k' vs] d IH]; cbn; intros Hd item.
  - intros [<- | []]. discriminate.
  - destruct (key_eqb k' k); cbn.
    + intros [<- | Hin]; [| apply Hd; now right]. cbn. now destruct vs.
    + intros [<- | Hin]; [apply (Hd (k', vs)); now left |].
      apply IH; [| exact Hin]. intros item' Hin'. apply Hd. now right.
Qed.

Lemma first_members_append (d : dict K (list A)) (k : K) (v : A) :
  (forall item, In item d -> snd item <> []) ->
  first_members (dict_append d k v) = first_members d \/
  first_members (dict_append d k v) = first_members d ++ [v].
Proof.
  unfold first_members.
  induction d as [|[k' vs] d IH]; cbn [dict_append flat_map snd]; intros Hd.
  - now right.
  - destruct (key_eqb k' k); cbn [flat_map snd].
    + left. f_equal. pose proof (Hd (k', vs) (or_introl eq_refl)) as Hvs.
      now destruct vs.
    + assert (Hd' : forall item, In item d -> snd item <> [])
        by (intros item Hin; apply Hd; now right).
      destruct (IH Hd') as [-> | ->].
      * now left.
      * right. now rewrite app_assoc.
Qed.

(** After the items [l], every list of the dictionary has a first member,
    and the first members are items of [l] in the order of [l]. *)
Lemma first_members_fold (l : list A) :
  forall d l0,
    (forall item, In item d -> snd item <> []) ->
    subsequence (first_members d) l0 ->
    (forall item, In item (fold_left (add_item key) l d) -> snd item <> []) /\
    subsequence (first_members (fold_left (add_item key) l d)) (l0 ++ l).
Proof.
  induction l as [|x l IH]; intros d l0 Hd Hsub; cbn [fold_left].
  - now rewrite app_nil_r.
  - replace (l0 ++ x :: l) with ((l0 ++ [x]) ++ l) by now rewrite <- app_assoc.
    apply IH; unfold add_item; destruct (key x) as [k|].
    + now apply dict_append_nonempty.
    + exact Hd.
    + destruct (first_members_append d k x Hd) as [-> | ->].
      * rewrite <- (app_nil_r (first_members d)).
        apply subsequence_app; [exact Hsub | apply subsequence_nil].
      * apply subsequence_app; [exact Hsub | apply subsequence_refl].
    + rewrite <- (app_nil_r (first_members d)).
      apply subsequence_app; [exact Hsub | apply subsequence_nil].
Qed.

Lemma first_members_more_than_one (d : dict K (list A)) :
  subsequence (first_members (more_than_one d)) (first_members d).
Proof.
  unfold first_members, more_than_one.
  induction d as [|item d IH]; cbn [filter flat_map]; [constructor |].
  destruct (1 <? length (snd item))%nat; cbn [flat_map].
  - apply subsequence_app; [apply subsequence_refl | exact IH].
  - rewrite <- (app_nil_l (flat_map _ (filter _ d))).
    apply subsequence_app; [apply subsequence_nil | exact IH].
Qed.

Lemma first_members_in_order (l : list A) :
  subsequence (first_members (more_than_one (group_by key l))) l.
Proof.
  apply subsequence_trans with (b := first_members (group_by key l)).
  - apply first_members_more_than_one.
  - apply (first_members_fold l [] (l0 := [])).
    + intros item [].
    + constructor.
Qed.

Lemma length_first_members (d : dict K (list A)) :
  (forall item, In item d -> snd item <> []) ->
  length (first_members d) = length d.
Proof.
  unfold first_members.
  induction d as [|[k vs] d IH]; cbn [flat_map snd]; intros Hd; [reflexivity |].
  rewrite length_app, IH by (intros item Hin; apply Hd; now right).
  pose proof (Hd (k, vs) (or_introl eq_refl)) as Hvs. now destruct vs.
Qed.

Lemma more_than_one_nonempty (d : dict K (list A)) :
  forall item, In item (more_than_one d) -> snd item <> [].
Proof.
  intros [k vs] Hin. apply two_of_more_than_one in Hin. cbn. destruct vs; [cbn in Hin; lia |].
  discriminate.
Qed.

(** When no key is the key of two items, no group is returned. *)
Lemma no_groups_without_pairs (l : list A) :
  (forall k, (length (having key k l) <= 1)%nat) ->
  more_than_one (group_by key l) = [].
Proof.
  intros Hsingle. destruct (more_than_one (group_by key l)) as [|[k vs] d] eqn:E;
    [reflexivity | exfalso].
  assert (Hin : In (k, vs) (more_than_one (group_by key l))) by (rewrite E; now left).
  apply more_than_one_group_by in Hin. destruct Hin as [-> Hlen].
  specialize (Hsingle k). lia.
Qed.

End GroupOrder.

(** X6: the groups come in visiting order.  In the result of either pass
    every group has a first member, and the first members of the groups,
    in the order of the dictionary, are paths of the traversal in the
    order of the traversal: a group whose first file came earlier is
    earlier in the dictionary. *)
Theorem groups_in_visiting_order {HA : HashAlgorithm} :
  (forall directory w,
      exists size_groups,
        fst (find_duplicates_by_size directory w) = Ok size_groups /\
        length (first_members size_groups) = length size_groups /\
        subsequence (first_members size_groups) (walked (sys w) directory)) /\
  (forall size_dict w,
      exists groups,
        fst (find_duplicates_by_hash size_dict w) = Ok groups /\
        length (first_members groups) = length groups /\
        subsequence (first_members groups) (concat (values size_dict))).
Proof.
  split.
  - intros directory w. eexists. rewrite find_duplicates_by_size_run. cbn [fst].
    split; [reflexivity |]. split.
    + apply length_first_members, more_than_one_nonempty.
    + apply first_members_in_order.
  - intros size_dict w. eexists. rewrite find_duplicates_by_hash_run. cbn [fst].
    split; [reflexivity |]. split.
    + apply length_first_members, more_than_one_nonempty.
    + apply first_members_in_order.
Qed.

(** ** What is opened and what is printed *)

Lemma opens_app (a b : list event) : opens (a ++ b) = opens a ++ opens b.
Proof. apply flat_map_app. Qed.

Lemma printed_app (a b : list event) : printed (a ++ b) = printed a ++ printed b.
Proof. apply flat_map_app. Qed.

Lemma opens_size_events (s : os) (l : list string) :
  opens (flat_map (size_events s) l) = [].
Proof.
  induction l as [|p l IH]; cbn [flat_map]; [reflexivity |].
  rewrite opens_app, IH. unfold size_events. now destruct (st_size s p).
Qed.

Lemma printed_lines {A : Type} (f : A -> string) (l : list A) :
  printed (map (fun x => Printed (f x)) l) = map f l
  /\ opens (map (fun x => Printed (f x)) l) = [].
Proof.
  unfold printed, opens. induction l as [|x l [IHp IHo]]; cbn [map flat_map app].
  - now split.
  - now rewrite IHp, IHo.
Qed.

Lemma opens_group_lines (d : dict string (list string)) :
  opens (flat_map group_lines d) = [].
Proof.
  induction d as [|[h paths] d IH]; cbn [flat_map]; [reflexivity |].
  rewrite opens_app, IH, app_nil_r. unfold group_lines. cbn [fst snd].
  change (opens (Printed ?x :: ?l)) with (opens l).
  apply (printed_lines (fun file_path => "  " +++ file_path)).
Qed.

Lemma printed_group_lines (d : dict string (list string)) :
  printed (flat_map group_lines d) = flat_map report_lines d.
Proof.
  induction d as [|[h paths] d IH]; cbn [flat_map]; [reflexivity |].
  rewrite printed_app, IH. f_equal.
  unfold group_lines, report_lines. cbn [fst snd].
  change (printed (Printed ?x :: ?l)) with (x :: printed l). f_equal.
  apply (printed_lines (fun file_path => "  " +++ file_path)).
Qed.

(** X8: the size pass opens nothing.  When [find_duplicates_by_size]
    returns, it has opened no file, and what it has printed is one line
    for each visited path whose size could not be obtained, in visiting
    order. *)
Theorem size_pass_opens_nothing (directory : string) (w w' : world)
        (size_groups : dict Z (list string)) :
  find_duplicates_by_size directory w = (Ok size_groups, w') ->
  exists evs,
    w' = emit w evs /\
    opens evs = [] /\
    printed evs =
      flat_map (fun p => match st_size (sys w) p with
                         | inl e => ["Error accessing " +++ p +++ ": " +++ e]
                         | inr _ => []
                         end) (walked (sys w) directory).
Proof.
  rewrite find_duplicates_by_size_run. intros [= _ <-].
  eexists. split; [reflexivity |]. split; [apply opens_size_events |].
  induction (walked (sys w) directory) as [|p l IH]; cbn [flat_map]; [reflexivity |].
  rewrite printed_app, IH. f_equal. unfold size_events.
  now destruct (st_size (sys w) p).
Qed.

(** X13: the report.  When [display_duplicates] returns, it has opened
    no file and has printed for each group of its dictionary, in order, the
    line of the digest and then one line for each path of the group: as
    many lines as there are groups and paths, none for the empty
    dictionary. *)
Theorem display_duplicates_lines (duplicate_dict : dict string (list string))
        (w w' : world) :
  display_duplicates duplicate_dict w = (Ok tt, w') ->
  exists evs,
    w' = emit w evs /\
    opens evs = [] /\
    printed evs = flat_map report_lines duplicate_dict /\
    length (printed evs) =
      (length duplicate_dict + length (concat (values duplicate_dict)))%nat.
Proof.
  rewrite display_duplicates_run. intros [= <-].
  eexists. split; [reflexivity |].
  split; [apply opens_group_lines |]. split; [apply printed_group_lines |].
  rewrite printed_group_lines.
  induction duplicate_dict as [|[h paths] d IH]; cbn [flat_map values map concat snd];
    [reflexivity |].
  rewrite !length_app, IH. unfold report_lines, values. cbn [length snd].
  rewrite length_map. lia.
Qed.

Section MoreOnHashing.

Context {HA : HashAlgorithm}.

Lemma opens_hash_events (s : os) (l : list string) :
  opens (flat_map (hash_events s) l) = l.
Proof.
  induction l as [|p l IH]; cbn [flat_map]; [reflexivity |].
  rewrite opens_app, IH. unfold hash_events.
  destruct (hashing s p default_block_size) as [[e|m]|h]; reflexivity.
Qed.

(** X9: every candidate is opened once.  When [find_duplicates_by_hash]
    returns, it has opened the paths of its input lists, each occurrence
    once, in the order of the lists, and nothing else. *)
Theorem hash_pass_opens_each_candidate_once (size_dict : dict Z (list string))
        (w w' : world) (groups : dict string (list string)) :
  find_duplicates_by_hash size_dict w = (Ok groups, w') ->
  exists evs, w' = emit w evs /\ opens evs = concat (values size_dict).
Proof.
  rewrite find_duplicates_by_hash_run. intros [= _ <-].
  eexists. split; [reflexivity | apply opens_hash_events].
Qed.

(** X10: [hash_file] prints exactly when it fails.  When [hash_file]
    returns, with whatever block size, it has opened the path once, and
    either it returns a digest and has printed nothing, or it returns
    [None] and has printed the one line of the error. *)
Theorem hash_file_prints_iff_it_fails (file_path : string) (block_size : Z)
        (w w' : world) (returned : option string) :
  hash_file file_path block_size w = (Ok returned, w') ->
  exists evs,
    w' = emit w evs /\
    opens evs = [file_path] /\
    ((exists d, returned = Some d /\ printed evs = []) \/
     (exists e, returned = None /\
                printed evs = ["Error reading " +++ file_path +++ ": " +++ e])).
Proof.
  rewrite hash_file_run.
  destruct (hashing (sys w) file_path block_size) as [[e | m] | h].
  - intros [= <- <-]. eexists. split; [reflexivity |]. split; [reflexivity |].
    right. now exists e.
  - discriminate.
  - intros [= <- <-]. eexists. split; [reflexivity |]. split; [reflexivity |].
    left. now eexists.
Qed.

Lemma read_whole (c : list byte) :
  read (Handle c None) (-1) = inr (c, Handle [] None).
Proof. unfold read. cbn. now rewrite firstn_all, skipn_all. Qed.

Lemma stream_whole (c : list byte) (h : hasher) :
  stream (-1) (Handle c None) h = inr (update h c).
Proof.
  unfold stream. rewrite read_whole, read_blocks_step.
  destruct c as [|b c]; [now rewrite update_nil |].
  unfold stream. rewrite read_whole. apply read_blocks_equation_1.
Qed.

(** X11: the block size -1 reads the file at once.  For a file that
    opens and reads without fault, [hash_file] with block size -1 returns
    the digest of the whole content, as it does with a positive size. *)
Theorem hash_file_reads_all_at_once (file_path : string) (w : world) (f : file) :
  lookup (sys w) file_path = inr f ->
  fault f = None ->
  hash_file file_path (-1) w = (Ok (Some (one_pass (content f))), emit w [Open file_path]).
Proof.
  intros Hf Hfault. rewrite hash_file_run. unfold hashing.
  now rewrite Hf, Hfault, stream_whole.
Qed.

(** X12: the block size 0 reads nothing.  For a file that opens and whose
    first read does not fail, [hash_file] with block size 0 returns the
    digest of the empty content, whatever the file holds. *)
Theorem hash_file_with_block_size_0 (file_path : string) (w : world) (f : file) :
  lookup (sys w) file_path = inr f ->
  (forall e, fault f <> Some (0%nat, e)) ->
  hash_file file_path 0 w = (Ok (Some (one_pass [])), emit w [Open file_path]).
Proof.
  intros Hf Hfault. rewrite hash_file_run. unfold hashing, stream, read.
  rewrite Hf. cbn [unread reads_left Z.ltb Z.eqb Z.compare Z.to_nat firstn].
  unfold one_pass. rewrite update_nil.
  destruct (fault f) as [[[|k] e]|].
  - now destruct (Hfault e).
  - now rewrite read_blocks_equation_1.
  - now rewrite read_blocks_equation_1.
Qed.

(** X14: only [OSError] is handled.  With a block size below -1 the first
    [read] of an opened file raises [ValueError], which [hash_file] does
    not catch: the exception leaves the function and nothing is printed.
    When the file does not open, the [OSError] of [open] is handled as
    with any block size. *)
Theorem hash_file_lets_ValueError_through (file_path : string) (block_size : Z)
        (w : world) :
  block_size < -1 ->
  hash_file file_path block_size w =
  match lookup (sys w) file_path with
  | inr _ =>
      (Raise (ValueError "read length must be non-negative or -1"),
       emit w [Open file_path])
  | inl e =>
      (Ok None,
       emit w [Open file_path; Printed ("Error reading " +++ file_path +++ ": " +++ e)])
  end.
Proof.
  intros Hneg. rewrite hash_file_run. unfold hashing, stream, read.
  destruct (lookup (sys w) file_path) as [e | f]; [reflexivity |].
  destruct (Z.ltb_spec block_size (-1)); [reflexivity | lia].
Qed.

End MoreOnHashing.

(** ** The script *)

Section MoreOnMain.

Context {HA : HashAlgorithm}.

(** X15: no equal sizes, no hashing.  When no size is reported for two
    visited paths and the body of the script ends, it has opened no file:
    after the diagnostics of the size pass it has printed that there are
    no duplicates by size, and nothing more. *)
Theorem main_without_equal_sizes (directory : string) (w w' : world) :
  main directory w = (Ok tt, w') ->
  (forall s,
      (length (having (size_of (sys w)) s (walked (sys w) directory)) <= 1)%nat) ->
  exists evs,
    w' = emit w evs /\
    opens evs = [] /\
    printed evs =
      printed (flat_map (size_events (sys w)) (walked (sys w) directory))
        ++ ["No duplicate files found based on size."].
Proof.
  rewrite main_run. intros [= <-] Hsingle.
  rewrite (no_groups_without_pairs _ _ Hsingle).
  eexists. split; [reflexivity |]. split.
  - now rewrite opens_app, opens_size_events.
  - now rewrite printed_app.
Qed.

(** X16: the script is the scan and then the report.  When the body of
    the script ends, both passes have returned and the script has left the
    world of the scan with one more message or the report: the message
    about sizes when there is no size group, the message about contents
    when there are size groups and no digest group, and otherwise the
    lines of [display_duplicates] for the groups of the scan. *)
Theorem main_is_scan_then_report (directory : string) (w w_end : world) :
  main directory w = (Ok tt, w_end) ->
  exists size_groups groups w',
    fst (find_duplicates_by_size directory w) = Ok size_groups /\
    full_scan directory w = (Ok groups, w') /\
    w_end =
      emit w'
        match size_groups, groups with
        | [], _ => [Printed "No duplicate files found based on size."]
        | _ :: _, [] => [Printed "No duplicate files found based on content."]
        | _ :: _, _ :: _ => flat_map group_lines groups
        end.
Proof.
  rewrite main_run. intros [= <-].
  eexists _, _, _. rewrite find_duplicates_by_size_run, full_scan_run.
  cbn [fst]. split; [reflexivity |]. split; [reflexivity |].
  rewrite emit_emit. unfold scan_events. fold (size_groups_of (sys w) directory).
  destruct (size_groups_of (sys w) directory) as [|item size_groups] eqn:E.
  - cbn [values map concat flat_map]. now rewrite app_nil_r.
  - now destruct (scan_groups (sys w) directory).
Qed.

(** X17: equal sizes but no equal digests.  When some size is reported
    for two visited paths and no digest is returned for two candidates,
    the script opens every candidate once and ends with the message that
    there are no duplicates by content. *)
Theorem main_without_equal_digests (directory : string) (w : world) (s : Z) :
  (2 <= length (having (size_of (sys w)) s (walked (sys w) directory)))%nat ->
  (forall d,
      (length (having (digest_of (sys w)) d
                 (concat (values (size_groups_of (sys w) directory)))) <= 1)%nat) ->
  exists evs,
    main directory w =
      (Ok tt, emit w (evs ++ [Printed "No duplicate files found based on content."])) /\
    opens evs = concat (values (size_groups_of (sys w) directory)).
Proof.
  intros Hpair Hsingle. exists (scan_events (sys w) directory). rewrite main_run.
  assert (Hin : In (s, having (size_of (sys w)) s (walked (sys w) directory))
                   (size_groups_of (sys w) directory)).
  { apply more_than_one_group_by. split; [reflexivity | lia]. }
  fold (size_groups_of (sys w) directory).
  destruct (size_groups_of (sys w) directory) as [|item size_groups] eqn:E;
    [destruct Hin |].
  assert (Hnone : scan_groups (sys w) directory = []).
  { unfold scan_groups. rewrite (group_by_ext _ _ _ (digest_key_digest_of (sys w))), E.
    now apply no_groups_without_pairs. }
  rewrite Hnone. split; [reflexivity |].
  unfold scan_events. rewrite opens_app, opens_size_events, opens_hash_events.
  now rewrite E.
Qed.

End MoreOnMain.

(** ** The further theorems at concrete directories *)

Lemma size_groups_exact_witness :
  (forall s paths,
      In (s, paths) [(5, ["d/a.txt"; "d/c.txt"; "d/e.txt"])] <->
      paths = filter (fun p => match st_size (sys stat_denied) p with
                               | inr n => n =? s
                               | inl _ => false
                               end) (walked (sys stat_denied) "d")
      /\ (2 <= length paths)%nat) /\
  (forall s paths p,
      In (s, paths) [(5, ["d/a.txt"; "d/c.txt"; "d/e.txt"])] -> In p paths ->
      In p (walked (sys stat_denied) "d") /\ st_size (sys stat_denied) p = inr s).
Proof.
  apply (@size_groups_exact "d" stat_denied [(5, ["d/a.txt"; "d/c.txt"; "d/e.txt"])]).
  vm_compute. reflexivity.
Defined.

Lemma duplicates_are_reported_witness :
  exists groups paths,
    fst (full_scan "d" hello_hello_world) = Ok groups /\
    In (one_pass (bytes_of "hello"), paths) groups /\
    In "d/a.txt" paths /\ In "d/b.txt" paths.
Proof.
  apply (@duplicates_are_reported md5 "d" hello_hello_world "d/a.txt" "d/b.txt" 5
           (File (bytes_of "hello") None) (File (bytes_of "hello") None)).
  - left. reflexivity.
  - right. left. reflexivity.
  - discriminate.
  - reflexivity.
  - reflexivity.
  - reflexivity.
  - reflexivity.
  - reflexivity.
  - reflexivity.
  - reflexivity.
Defined.

Lemma reported_paths_were_candidates_witness :
  In "d/c.txt" (walked (sys deleted_before_hashing) "d") /\
  exists s f,
    st_size (sys deleted_before_hashing) "d/c.txt" = inr s /\
    (2 <= length (having (size_of (sys deleted_before_hashing)) s
                    (walked (sys deleted_before_hashing) "d")))%nat /\
    lookup (sys deleted_before_hashing) "d/c.txt" = inr f /\
    one_pass (content f) = "5d41402abc4b2a76b9719d911017c592".
Proof.
  apply (@reported_paths_were_candidates md5 "d" deleted_before_hashing
           [("5d41402abc4b2a76b9719d911017c592", ["d/a.txt"; "d/c.txt"])]
           "5d41402abc4b2a76b9719d911017c592" ["d/a.txt"; "d/c.txt"]).
  - vm_compute. reflexivity.
  - left. reflexivity.
  - right. left. reflexivity.
Defined.

Lemma no_path_reported_twice_witness :
  exists size_groups groups,
    fst (find_duplicates_by_size "d" hello_hello_world) = Ok size_groups /\
    fst (full_scan "d" hello_hello_world) = Ok groups /\
    NoDup (concat (values size_groups)) /\
    NoDup (concat (values groups)).
Proof.
  apply (@no_path_reported_twice md5 "d" hello_hello_world).
  change (NoDup ["d/a.txt"; "d/b.txt"; "d/c.txt"]).
  repeat constructor; cbn; intuition discriminate.
Defined.

Lemma hash_pass_reads_one_sequence_witness :
  find_duplicates_by_hash [(5, ["d/a.txt"; "d/b.txt"; "d/c.txt"])] hello_hello_world =
  find_duplicates_by_hash [(1, ["d/a.txt"]); (2, []); (3, ["d/b.txt"; "d/c.txt"])]
                          hello_hello_world.
Proof.
  apply (@hash_pass_reads_one_sequence md5). reflexivity.
Defined.

Lemma hash_file_prints_iff_it_fails_witness :
  exists evs,
    emit hello_hello_world [Open "d/a.txt"] = emit hello_hello_world evs /\
    opens evs = ["d/a.txt"] /\
    ((exists d, Some "5d41402abc4b2a76b9719d911017c592" = Some d /\ printed evs = []) \/
     (exists e, Some "5d41402abc4b2a76b9719d911017c592" = None /\
                printed evs = ["Error reading " +++ "d/a.txt" +++ ": " +++ e])).
Proof.
  apply (@hash_file_prints_iff_it_fails md5 "d/a.txt" 2 hello_hello_world).
  vm_compute. reflexivity.
Defined.

Lemma size_pass_opens_nothing_witness :
  exists evs,
    emit stat_denied
         [Printed "Error accessing d/b.txt: [Errno 13] Permission denied: 'd/b.txt'"]
      = emit stat_denied evs /\
    opens evs = [] /\
    printed evs =
      flat_map (fun p => match st_size (sys stat_denied) p with
                         | inl e => ["Error accessing " +++ p +++ ": " +++ e]
                         | inr _ => []
                         end) (walked (sys stat_denied) "d").
Proof.
  apply (@size_pass_opens_nothing "d" stat_denied _
           [(5, ["d/a.txt"; "d/c.txt"; "d/e.txt"])]).
  reflexivity.
Defined.

Lemma hash_pass_opens_each_candidate_once_witness :
  exists evs,
    emit deleted_before_hashing
         [Open "d/a.txt"; Open "d/b.txt";
          Printed ("Error reading " +++ "d/b.txt" +++ ": " +++ no_such_file "d/b.txt");
          Open "d/c.txt"]
      = emit deleted_before_hashing evs /\
    opens evs = concat (values [(5, ["d/a.txt"; "d/b.txt"; "d/c.txt"])]).
Proof.
  apply (@hash_pass_opens_each_candidate_once md5
           [(5, ["d/a.txt"; "d/b.txt"; "d/c.txt"])] deleted_before_hashing _
           [("5d41402abc4b2a76b9719d911017c592", ["d/a.txt"; "d/c.txt"])]).
  vm_compute. reflexivity.
Defined.

Lemma display_duplicates_lines_witness :
  exists evs,
    emit hello_hello_world
         [Printed (newline +++ "Duplicate files with hash " +++ "5d41" +++ ":");
          Printed "  d/a.txt"; Printed "  d/b.txt"]
      = emit hello_hello_world evs /\
    opens evs = [] /\
    printed evs = flat_map report_lines [("5d41", ["d/a.txt"; "d/b.txt"])] /\
    length (printed evs) =
      (length [("5d41", ["d/a.txt"; "d/b.txt"])] +
       length (concat (values [("5d41", ["d/a.txt"; "d/b.txt"])])))%nat.
Proof.
  apply (@display_duplicates_lines [("5d41", ["d/a.txt"; "d/b.txt"])] hello_hello_world).
  reflexivity.
Defined.

Lemma main_is_scan_then_report_witness :
  exists size_groups groups w',
    fst (find_duplicates_by_size "d" hello_hello_world) = Ok size_groups /\
    full_scan "d" hello_hello_world = (Ok groups, w') /\
    emit hello_hello_world
         [Open "d/a.txt"; Open "d/b.txt"; Open "d/c.txt";
          Printed (newline +++ "Duplicate files with hash "
                           +++ "5d41402abc4b2a76b9719d911017c592" +++ ":");
          Printed "  d/a.txt"; Printed "  d/b.txt"] =
      emit w'
        match size_groups, groups with
        | [], _ => [Printed "No duplicate files found based on size."]
        | _ :: _, [] => [Printed "No duplicate files found based on content."]
        | _ :: _, _ :: _ => flat_map group_lines groups
        end.
Proof.
  apply (@main_is_scan_then_report md5 "d" hello_hello_world).
  vm_compute. reflexivity.
Defined.

Lemma hash_file_reads_all_at_once_witness :
  hash_file "d/a.txt" (-1) hello_hello_world =
  (Ok (Some (one_pass (bytes_of "hello"))), emit hello_hello_world [Open "d/a.txt"]).
Proof.
  apply (@hash_file_reads_all_at_once md5 "d/a.txt" hello_hello_world
           (File (bytes_of "hello") None)); reflexivity.
Defined.

Lemma hash_file_with_block_size_0_witness :
  hash_file "d/a.txt" 0 hello_hello_world =
  (Ok (Some (one_pass [])), emit hello_hello_world [Open "d/a.txt"]).
Proof.
  apply (@hash_file_with_block_size_0 md5 "d/a.txt" hello_hello_world
           (File (bytes_of "hello") None)).
  - reflexivity.
  - intros e. discriminate.
Defined.

Lemma hash_file_lets_ValueError_through_witness :
  hash_file "d/a.txt" (-2) hello_hello_world =
  match lookup (sys hello_hello_world) "d/a.txt" with
  | inr _ =>
      (Raise (ValueError "read length must be non-negative or -1"),
       emit hello_hello_world [Open "d/a.txt"])
  | inl e =>
      (Ok None,
       emit hello_hello_world
            [Open "d/a.txt"; Printed ("Error reading " +++ "d/a.txt" +++ ": " +++ e)])
  end.
Proof.
  apply (@hash_file_lets_ValueError_through md5 "d/a.txt" (-2) hello_hello_world).
  reflexivity.
Defined.

Lemma main_without_equal_sizes_witness :
  exists evs,
    emit ten_and_twenty [Printed "No duplicate files found based on size."]
      = emit ten_and_twenty evs /\
    opens evs = [] /\
    printed evs =
      printed (flat_map (size_events (sys ten_and_twenty))
                        (walked (sys ten_and_twenty) "d"))
        ++ ["No duplicate files found based on size."].
Proof.
  apply (@main_without_equal_sizes md5 "d" ten_and_twenty).
  - reflexivity.
  - intros s.
    change (walked (sys ten_and_twenty) "d") with ["d/a.bin"; "d/b.bin"].
    unfold having. cbn [filter]. unfold has_key.
    change (size_of (sys ten_and_twenty) "d/a.bin") with (Some 10).
    change (size_of (sys ten_and_twenty) "d/b.bin") with (Some 20).
    cbn [key_eqb EqKey_Z].
    destruct (Z.eqb_spec 10 s), (Z.eqb_spec 20 s); cbn [length]; lia.
Defined.

Lemma main_without_equal_digests_witness :
  exists evs,
    main "d" same_size_other_content =
      (Ok tt,
       emit same_size_other_content
            (evs ++ [Printed "No duplicate files found based on content."])) /\
    opens evs = concat (values (size_groups_of (sys same_size_other_content) "d")).
Proof.
  apply (@main_without_equal_digests md5 "d" same_size_other_content 5).
  - vm_compute. lia.
  - intros d.
    assert (Hlisted : concat (values (size_groups_of (sys same_size_other_content) "d"))
                      = ["d/a.txt"; "d/b.txt"]) by (vm_compute; reflexivity).
    assert (Ha : digest_of (sys same_size_other_content) "d/a.txt"
                 = Some "5d41402abc4b2a76b9719d911017c592") by (vm_compute; reflexivity).
    assert (Hb : digest_of (sys same_size_other_content) "d/b.txt"
                 = Some "7d793037a0760186574b0282f2f435e7") by (vm_compute; reflexivity).
    rewrite Hlisted. unfold having. cbn [filter]. unfold has_key. rewrite Ha, Hb.
    cbn [key_eqb EqKey_string].
    destruct (String.eqb_spec "5d41402abc4b2a76b9719d911017c592" d),
             (String.eqb_spec "7d793037a0760186574b0282f2f435e7" d);
      cbn [length]; try lia.
    subst d. discriminate.
Defined.

(** Files of a directory and of its subdirectory are grouped together;
    the directory behind the symbolic link is not entered. *)
Example scenario_nested_directories :
  outcome (full_scan "top" nested_directories) =
  (Ok [("5d41402abc4b2a76b9719d911017c592", ["top/a.txt"; "top/sub/b.txt"])],
   [Open "top/a.txt"; Open "top/sub/b.txt"]).
Proof. vm_compute. reflexivity. Qed.
